(** * TransSpell: a shallow embedding of [transspell.py]

    The development follows the single class of the repository,
    [TransSpell], method by method:

    - [clean_token], the token cleaner;
    - [is_error], the rule-based detector, with the lazily constructed
      dictionary providers and the optional frequency table;
    - [generate_frequency_list] and the constructor;
    - [generate_candidates] and [correct_errors], the masked-model
      correction loop.

    Python strings are modelled as [string]; a character [c : ascii] is read
    as the Unicode code point of the same number, so the model covers the
    strings whose code points are below 256 (ASCII and the Latin-1
    supplement).  On that range [str.lower] maps characters one to one and
    stays inside the range.

    The external collaborators (tokenizer, language model, stopword list,
    dictionary providers, file system) are variables of the section
    [Corrector]. *)

From Stdlib Require Import ZArith Ascii String.
From stdpp Require Import base decidable option list strings gmap.

Local Open Scope Z_scope.

(** ** Python strings *)

Module PyStr.

Definition code (c : ascii) : N := N_of_ascii c.

Definition between (lo hi : N) (c : ascii) : bool :=
  ((lo <=? code c) && (code c <=? hi))%N.

(** [re.match(r"\w", c)] on a [str] pattern: [c.isalnum() or c == "_"].
    Below 128 these are the digits, the letters and the underscore; in the
    Latin-1 supplement the letters (all of U+00C0..U+00FF but the signs
    U+00D7 and U+00F7, with U+00AA, U+00B5, U+00BA) and the numeric
    characters U+00B2, U+00B3, U+00B9, U+00BC..U+00BE. *)
Definition is_word (c : ascii) : bool :=
  between 48 57 c || between 65 90 c || between 97 122 c
  || (code c =? 95)%N
  || (code c =? 170)%N || (code c =? 181)%N || (code c =? 186)%N
  || (code c =? 178)%N || (code c =? 179)%N || (code c =? 185)%N
  || between 188 190 c
  || between 192 214 c || between 216 246 c || between 248 255 c.

(** [c.lower()] for a single character with a code point below 256: one
    character, whatever its neighbours. *)
Definition lower_char (c : ascii) : ascii :=
  if between 65 90 c || between 192 214 c || between 216 222 c
  then ascii_of_N (code c + 32)
  else c.

(** [s.lower()] *)
Fixpoint lower (s : string) : string :=
  match s with
  | EmptyString => EmptyString
  | String c s' => String (lower_char c) (lower s')
  end.

(** [len(s)] *)
Definition len (s : string) : Z := Z.of_nat (String.length s).

(** [s.split(sep)] for a one-character separator: the fields between
    consecutive separators, empty fields included; the empty string splits
    to one empty field. *)
Fixpoint split (sep : ascii) (s : string) : list string :=
  match s with
  | EmptyString => [EmptyString]
  | String c s' =>
      if Ascii.eqb c sep then EmptyString :: split sep s'
      else match split sep s' with
           | [] => [String c EmptyString]
           | w :: ws => String c w :: ws
           end
  end.

(** [sep.join(l)] *)
Fixpoint join (sep : string) (l : list string) : string :=
  match l with
  | [] => EmptyString
  | [w] => w
  | w :: ws => w +:+ sep +:+ join sep ws
  end.

(** The characters [str.split()] treats as whitespace. *)
Definition is_space (c : ascii) : bool :=
  between 9 13 c || between 28 32 c || (code c =? 133)%N || (code c =? 160)%N.

Definition push_field (w : string) (ws : list string) : list string :=
  match w with
  | EmptyString => ws
  | _ => w :: ws
  end.

(** [fields s] is the (possibly empty) field that starts at the head of
    [s], and the fields after it. *)
Fixpoint fields (s : string) : string * list string :=
  match s with
  | EmptyString => (EmptyString, [])
  | String c s' =>
      let '(w, ws) := fields s' in
      if is_space c then (EmptyString, push_field w ws)
      else (String c w, ws)
  end.

(** [s.split()] with no argument: the maximal runs of non-whitespace. *)
Definition split_ws (s : string) : list string :=
  let '(w, ws) := fields s in push_field w ws.

(** A string contains the character [c]. *)
Fixpoint has_char (c : ascii) (s : string) : bool :=
  match s with
  | EmptyString => false
  | String c' s' => Ascii.eqb c' c || has_char c s'
  end.

End PyStr.

(** ** Exceptions and results *)

Inductive exn : Type :=
| FileNotFoundError
| ParserError
| KeyError
| AttributeError
| IndexError
| TypeError
| RuntimeError
| DictNotFoundError.

Inductive result (A : Type) : Type :=
| Ok (a : A)
| Raise (e : exn).
Arguments Ok {A} a.
Arguments Raise {A} e.

#[global] Instance result_ret : MRet result := fun A a => Ok a.
#[global] Instance result_bind : MBind result := fun A B f m =>
  match m with
  | Ok a => f a
  | Raise e => Raise e
  end.

(** A computation that records the masked sentences it hands to the
    language model, in call order. *)
Definition traced (A : Type) : Type := (result A * list string)%type.

#[global] Instance traced_ret : MRet traced := fun A a => (Ok a, []).
#[global] Instance traced_bind : MBind traced := fun A B f m =>
  match m with
  | (Ok a, t) => let '(r, t') := f a in (r, t ++ t')
  | (Raise e, t) => (Raise e, t)
  end.

Definition lift {A} (r : result A) : traced A := (r, []).

(** [l[i] = x]: an [IndexError] outside the list. *)
Definition setitem {A} (l : list A) (i : nat) (x : A) : result (list A) :=
  if bool_decide (i < length l)%nat then Ok (<[i:=x]> l) else Raise IndexError.

(** ** TokenCleaner: [TransSpell.clean_token] *)

Definition apostrophe : ascii := "'"%char.
Definition hyphen : ascii := "-"%char.

(** The two [continue] branches of the loop body, for the character [char]
    at index [i] of a token of length [n]. *)
Definition skipped (n i : Z) (char : ascii) : bool :=
  if negb (PyStr.is_word char) then
    if negb (Ascii.eqb char apostrophe || Ascii.eqb char hyphen) then true
    else if Ascii.eqb char apostrophe && negb (i =? n - 2) then true
    else false
  else false.

Fixpoint clean_chars (n i : Z) (chars : string) : string :=
  match chars with
  | EmptyString => EmptyString
  | String char rest =>
      if skipped n i char then clean_chars n (i + 1) rest
      else String (PyStr.lower_char char) (clean_chars n (i + 1) rest)
  end.

Definition clean_token (token : string) : string :=
  clean_chars (PyStr.len token) 0 token.

(** The last character of [s] is dropped by cleaning and the one before it is
    an apostrophe: the apostrophe is kept, and ends up last. *)
Fixpoint apostrophe_stranded (s : string) : bool :=
  match s with
  | EmptyString => false
  | String a rest =>
      match rest with
      | String b EmptyString =>
          Ascii.eqb a apostrophe && negb (PyStr.is_word b || Ascii.eqb b hyphen)
      | _ => apostrophe_stranded rest
      end
  end.

(** Proof-side view of the cleaner.  [keeps c]: the character is kept at
    every index (a word character or a hyphen); [plain s]: cleaning where no
    apostrophe survives; [settled s]: every character of [s] is kept and is
    its own lower case. *)
Definition keeps (c : ascii) : bool := PyStr.is_word c || Ascii.eqb c hyphen.
Fixpoint plain (s : string) : string :=
  match s with
  | EmptyString => EmptyString
  | String c r => if keeps c then String (PyStr.lower_char c) (plain r) else plain r
  end.
Fixpoint settled (s : string) : bool :=
  match s with
  | EmptyString => true
  | String c r => keeps c && Ascii.eqb (PyStr.lower_char c) c && settled r
  end.

(** Every character of [s] passes the test [p]. *)
Fixpoint all_chars (p : ascii -> bool) (s : string) : bool :=
  match s with
  | EmptyString => true
  | String c r => p c && all_chars p r
  end.

(** How often the character [c] occurs in [s]. *)
Fixpoint count_char (c : ascii) (s : string) : nat :=
  match s with
  | EmptyString => 0
  | String c' r => ((if Ascii.eqb c' c then 1 else 0) + count_char c r)%nat
  end.

(** The alphabet of cleaned tokens: word characters that are their own
    lower case, the hyphen and the apostrophe. *)
Definition clean_char (c : ascii) : bool :=
  (PyStr.is_word c || Ascii.eqb c hyphen || Ascii.eqb c apostrophe)
  && Ascii.eqb (PyStr.lower_char c) c.

(** The character before the last one of [s] is an apostrophe. *)
Fixpoint apostrophe_second_last (s : string) : bool :=
  match s with
  | EmptyString => false
  | String a rest =>
      match rest with
      | String b EmptyString => Ascii.eqb a apostrophe
      | _ => apostrophe_second_last rest
      end
  end.

(** ** Data model *)

(** A dictionary provider ([enchant.Dict]): its [check] method, taken as a
    total lookup.  The library raises a [ValueError] when asked about the
    empty string, which [is_error] does only with a negative minimum and a
    token that cleans to nothing; the statements that would depend on that
    lookup leave the case out. *)
Record Dict : Type := { check : string -> bool }.

(** A cell of a data-frame column: a text, or a value that is not a [str]
    (the NaN of an empty field, a number). *)
Inductive cell : Type :=
| CellStr (text : string)
| CellOther.

(** A data frame: its columns by name. *)
Abbreviation DataFrame := (gmap string (list cell)).

(** [collections.Counter] over tokens. *)
Abbreviation Counter := (gmap string Z).

(** [c[token]]: the count, 0 for a token that was never counted. *)
Definition counter_get (c : Counter) (token : string) : Z :=
  default 0 (c !! token).

(** [c.update(tokens)] *)
Definition counter_update (c : Counter) (tokens : list string) : Counter :=
  foldl (fun acc token => <[token := counter_get acc token + 1]> acc) c tokens.

(** How often [token] occurs in a list. *)
Fixpoint occurrences (token : string) (tokens : list string) : nat :=
  match tokens with
  | [] => 0
  | t :: rest =>
      ((if String.eqb t token then 1 else 0) + occurrences token rest)%nat
  end.

(** The fields of a [TransSpell] instance that the methods read or write
    after construction (tokenizer, model and stopwords are section
    variables). *)
Record TransSpell : Type := mkTransSpell {
  char_minimum : Z;
  frequency_maximum : Z;
  dict_us : option Dict;
  dict_gb : option Dict;
  frequency_list : option Counter
}.

Definition set_dict_us (d : option Dict) (self : TransSpell) : TransSpell :=
  mkTransSpell (char_minimum self) (frequency_maximum self) d (dict_gb self)
    (frequency_list self).
Definition set_dict_gb (d : option Dict) (self : TransSpell) : TransSpell :=
  mkTransSpell (char_minimum self) (frequency_maximum self) (dict_us self) d
    (frequency_list self).
Definition set_frequency_list (f : option Counter) (self : TransSpell)
  : TransSpell :=
  mkTransSpell (char_minimum self) (frequency_maximum self) (dict_us self)
    (dict_gb self) f.

(** An entry of the candidate list while [correct_errors] scans it: still the
    vocabulary code the model returned, or already overwritten by its
    decoded text. *)
Inductive candidate : Type :=
| Code (id : Z)
| Text (s : string).

Definition no_corpus_message : string :=
  "Corpus could not be found in provided path. Proceeding without frequency list.".

(** The cleaned tokens of one answer: [clean_token] over [text.split()]. *)
Definition answer_tokens (text : string) : list string :=
  clean_token <$> PyStr.split_ws text.

(** The loop over [df["answers"]] of [generate_frequency_list], on the
    counter built so far; a cell that is not a text has no [split]. *)
Fixpoint count_answers (texts : list cell) (c : Counter) : result unit * Counter :=
  match texts with
  | [] => (Ok tt, c)
  | CellStr text :: rest => count_answers rest (counter_update c (answer_tokens text))
  | CellOther :: _ => (Raise AttributeError, c)
  end.

(** The texts of a column, when every cell is one. *)
Fixpoint all_texts (texts : list cell) : option (list string) :=
  match texts with
  | [] => Some []
  | CellStr text :: rest => cons text <$> all_texts rest
  | CellOther :: _ => None
  end.

(** The error a corpus makes the constructor raise, if any: a failed read
    other than a missing file, a missing [answers] column, a cell that is not
    a text. *)
Definition corpus_failure (read : result DataFrame) : option exn :=
  match read with
  | Raise FileNotFoundError => None
  | Raise e => Some e
  | Ok df =>
      match df !! "answers" with
      | None => Some KeyError
      | Some texts =>
          match all_texts texts with
          | Some _ => None
          | None => Some AttributeError
          end
      end
  end.

(** ** A small world to run the methods in *)

Module Sample.

(** A few of the English stopwords. *)
Definition stopwords : list string :=
  ["i"; "me"; "my"; "we"; "a"; "an"; "the"; "to"; "in"; "of"].

Definition mask_token : string := "[MASK]".
Definition mask_token_id : Z := 103.

(** One code per space-separated token, between the codes of the start and
    end markers: 103 for the mask, 100 for anything else. *)
Definition encode (sequence : string) : list Z :=
  101 :: ((fun w => if String.eqb w mask_token then 103 else 100)
            <$> PyStr.split " " sequence) ++ [102].

(** A four-word vocabulary; every other code decodes to the unknown token. *)
Definition decode (id : Z) : string :=
  if id =? 0 then "make"
  else if id =? 1 then "sure"
  else if id =? 2 then "Ensure"
  else if id =? 3 then "meet"
  else "[UNK]".

(** A vocabulary whose entries are two words each. *)
Definition decode_phrase (_ : Z) : string := "at least".

(** The logits are stood for by the length of the input; the best [topn]
    codes are [0 .. topn - 1] at every position. *)
Definition model (input_str : list Z) : result nat := Ok (length input_str).
Definition topk_indices (_ : nat) (_ : nat) (topn : nat) : result (list Z) :=
  Ok (Z.of_nat <$> seq 0 topn).

(** A model whose answers are empty. *)
Definition topk_nothing (_ : nat) (_ : nat) (_ : nat) : result (list Z) := Ok [].

Definition known (words : list string) : Dict :=
  {| check := fun w => bool_decide (w ∈ words) |}.

Definition en_US : Dict := known ["color"; "hello"; "spelling"].
Definition en_GB : Dict := known ["colour"; "hello"; "spelling"].

(** Both word lists are installed. *)
Definition enchant_Dict (tag : string) : result Dict :=
  if String.eqb tag "en_US" then Ok en_US
  else if String.eqb tag "en_GB" then Ok en_GB
  else Raise DictNotFoundError.

(** No word list is installed. *)
Definition enchant_nothing (_ : string) : result Dict := Raise DictNotFoundError.

(** Only the American word list is installed. *)
Definition enchant_us_only (tag : string) : result Dict :=
  if String.eqb tag "en_US" then Ok en_US else Raise DictNotFoundError.

(** One corpus file, with two answers. *)
Definition corpus : DataFrame :=
  {[ "answers" := [CellStr "The colour, the Spelling!"; CellStr "colour  colur"] ]}.

Definition read_csv (path : string) : result DataFrame :=
  if String.eqb path "corpus.csv" then Ok corpus else Raise FileNotFoundError.

(** The table of that corpus. *)
Definition corpus_table : Counter :=
  {[ "the" := 2; "colour" := 2; "spelling" := 1; "colur" := 1 ]}.

(** An instance with both providers set and a table in which [colur] has
    been seen ten times. *)
Definition with_table : TransSpell :=
  mkTransSpell 3 10 (Some en_US) (Some en_GB)
    (Some {[ "colur" := 10; "colour" := 11 ]}).

Definition fresh : TransSpell := mkTransSpell 3 10 None None None.

(** An instance whose table holds a word no dictionary knows, seen twelve
    times. *)
Definition with_jargon : TransSpell :=
  mkTransSpell 3 10 (Some en_US) (Some en_GB) (Some {[ "kubectl" := 12 ]}).

(** An instance with an empty table and a negative maximum. *)
Definition with_empty_table : TransSpell :=
  mkTransSpell 3 (-1) (Some en_US) (Some en_GB) (Some ∅).

(** Two more files: one without an [answers] column, one with an empty
    field between two answers. *)
Definition read_more (path : string) : result DataFrame :=
  if String.eqb path "notes.csv" then Ok {[ "notes" := [CellStr "colour"] ]}
  else if String.eqb path "holes.csv"
  then Ok {[ "answers" := [CellStr "the colour"; CellOther; CellStr "the"] ]}
  else if String.eqb path "broken.csv" then Raise ParserError
  else Raise FileNotFoundError.

End Sample.

Section Corrector.

(** *** External collaborators *)

(** [nltk.corpus.stopwords.words("english")] *)
Variable stopwords : list string.

(** The tokenizer: [mask_token], [mask_token_id], [encode], [decode]. *)
Variable mask_token : string.
Variable mask_token_id : Z.
Variable tokenizer_encode : string -> list Z.
Variable tokenizer_decode : Z -> string.

(** The language model: the forward pass on encoded input, and
    [torch.topk(...).indices] of the logits at one position, best first.
    The scores themselves stay abstract. *)
Variable logits : Type.
Variable model : list Z -> result logits.
Variable topk_indices : logits -> nat -> nat -> result (list Z).

(** [enchant.Dict(tag)]: the provider for a language tag, or the error of a
    missing word list. *)
Variable enchant_Dict : string -> result Dict.

(** [pd.read_csv(path, encoding="utf-8")] *)
Variable read_csv : string -> result DataFrame.

(** *** ErrorDetector: [TransSpell.is_error] *)

(** [if not self.dict_us: self.dict_us = enchant.Dict("en_US")] *)
Definition load_dict_us (self : TransSpell) : result TransSpell :=
  match dict_us self with
  | Some _ => Ok self
  | None => d ← enchant_Dict "en_US"; Ok (set_dict_us (Some d) self)
  end.

Definition load_dict_gb (self : TransSpell) : result TransSpell :=
  match dict_gb self with
  | Some _ => Ok self
  | None => d ← enchant_Dict "en_GB"; Ok (set_dict_gb (Some d) self)
  end.

(** Step 1: the cleaned token is too short to be judged. *)
Definition length_rule (self : TransSpell) (token : string) : bool :=
  PyStr.len token <=? char_minimum self.

(** Step 2: a (non-empty) frequency table exists and the count of the
    cleaned token is above the maximum. *)
Definition frequency_rule (self : TransSpell) (token : string) : bool :=
  match frequency_list self with
  | Some c =>
      if bool_decide (c = ∅) then false
      else frequency_maximum self <? counter_get c token
  | None => false
  end.

(** Step 3: one of the two dictionaries knows the cleaned token. *)
Definition dictionary_rule (self : TransSpell) (token : string) : bool :=
  match dict_us self, dict_gb self with
  | Some us, Some gb => check us token || check gb token
  | _, _ => false
  end.

(** The three rules in order, once both providers are there. *)
Definition verdict (self : TransSpell) (token : string) : bool :=
  if length_rule self token then false
  else if frequency_rule self token then false
  else if dictionary_rule self token then false
  else true.

(** [is_error]: the outcome and the instance as the call leaves it. *)
Definition is_error (self : TransSpell) (token : string)
  : result bool * TransSpell :=
  let token := clean_token token in
  match load_dict_us self with
  | Raise e => (Raise e, self)
  | Ok self1 =>
      match load_dict_gb self1 with
      | Raise e => (Raise e, self1)
      | Ok self2 => (Ok (verdict self2 token), self2)
      end
  end.

(** The provider a call of [is_error] works with: the cached one, or a
    freshly constructed one. *)
Definition us_provider (self : TransSpell) : result Dict :=
  match dict_us self with
  | Some d => Ok d
  | None => enchant_Dict "en_US"
  end.

Definition gb_provider (self : TransSpell) : result Dict :=
  match dict_gb self with
  | Some d => Ok d
  | None => enchant_Dict "en_GB"
  end.

(** *** FrequencyIndex: [TransSpell.generate_frequency_list] *)

(** The value returned (always [None]), the instance after the call and
    the lines printed. *)
Definition generate_frequency_list (self : TransSpell) (path : string)
  : result (option Counter) * TransSpell * list string :=
  match read_csv path with
  | Raise FileNotFoundError => (Ok None, self, [no_corpus_message])
  | Raise e => (Raise e, self, [])
  | Ok df =>
      let self1 := set_frequency_list (Some ∅) self in
      match df !! "answers" with
      | None => (Raise KeyError, self1, [])
      | Some texts =>
          let '(r, c) := count_answers texts ∅ in
          (match r with Ok _ => Ok None | Raise e => Raise e end,
           set_frequency_list (Some c) self, [])
      end
  end.

(** [TransSpell.__init__], once tokenizer, model and stopwords are loaded:
    [corpus_path] is [None] by default, and an empty path is falsy as well.
    The value [generate_frequency_list] returns is assigned to
    [self.frequency_list]. *)
Definition __init__ (minimum_token_length maximum_frequency : Z)
    (corpus_path : option string) : result TransSpell * list string :=
  let self :=
    mkTransSpell minimum_token_length maximum_frequency None None None in
  match corpus_path with
  | None | Some EmptyString => (Ok self, [])
  | Some path =>
      let '(r, self1, out) := generate_frequency_list self path in
      (match r with
       | Ok returned => Ok (set_frequency_list returned self1)
       | Raise e => Raise e
       end, out)
  end.

(** *** CandidateGenerator: [TransSpell.generate_candidates] *)

(** [torch.where(input_str == mask_token_id)[1]] *)
Fixpoint mask_positions (i : nat) (input_str : list Z) : list nat :=
  match input_str with
  | [] => []
  | id :: rest =>
      if id =? mask_token_id then i :: mask_positions (S i) rest
      else mask_positions (S i) rest
  end.

(** The candidates are those of the first masked position; with no mask in
    the encoded input, [indices[0]] is out of range.  The top-k selection is
    modelled at the position it is read at: with no mask and a [topn] above
    the size of the vocabulary, where the selection fails before the index
    does, the model does not apply. *)
Definition generate_candidates (sequence : string) (topn : nat)
  : result (list Z) :=
  let input_str := tokenizer_encode sequence in
  let mask_token_index := mask_positions 0 input_str in
  token_logits ← model input_str;
  match mask_token_index with
  | [] => Raise IndexError
  | p :: _ => topk_indices token_logits p topn
  end.

(** *** SentenceCorrector: [TransSpell.correct_errors] *)

Definition matches (suggestion token : string) : bool :=
  String.eqb (PyStr.lower suggestion) (PyStr.lower token).

(** The inner loop: decode the candidates in place, up to and including
    the first that matches [token]; the flag is [contained_in_suggestions]. *)
Fixpoint scan (token : string) (results : list Z) : list candidate * bool :=
  match results with
  | [] => ([], false)
  | id :: rest =>
      let suggestion := tokenizer_decode id in
      if matches suggestion token then (Text suggestion :: (Code <$> rest), true)
      else let '(rest', contained) := scan token rest in
           (Text suggestion :: rest', contained)
  end.

(** [generate_candidates(sent, topn=25)], recorded in the trace. *)
Definition query (sent : string) : traced (list Z) :=
  (generate_candidates sent 25, [sent]).

(** The loop body for a position that is not skipped.  Were [results[0]]
    still a code, the list would hold an integer and the next [join] would
    raise a [TypeError]. *)
Definition correct_position (i : nat) (token : string)
    (temp_sent : list string) : traced (list string) :=
  sent ← lift (setitem temp_sent i mask_token);
  results ← query (PyStr.join " " sent);
  let '(results, contained_in_suggestions) := scan token results in
  if contained_in_suggestions then mret temp_sent
  else match results with
       | [] => lift (Raise IndexError)
       | Text suggestion :: _ => lift (setitem temp_sent i suggestion)
       | Code _ :: _ => lift (Raise TypeError)
       end.

(** The loop over [enumerate(sequence.split(" "))], from index [i]. *)
Fixpoint correct_loop (i : nat) (tokens : list string)
    (temp_sent : list string) : traced (list string) :=
  match tokens with
  | [] => mret temp_sent
  | token :: rest =>
      if bool_decide (i = 0%nat) || bool_decide (token ∈ stopwords)
      then correct_loop (S i) rest temp_sent
      else temp_sent' ← correct_position i token temp_sent;
           correct_loop (S i) rest temp_sent'
  end.

Definition correct_errors (sequence : string) : traced string :=
  let temp_sent := PyStr.split " " sequence in
  temp_sent' ← correct_loop 0 (PyStr.split " " sequence) temp_sent;
  mret (PyStr.join " " temp_sent').


(** *** The life of an instance *)

(** The method calls made on an instance after its construction. *)
Inductive call : Type :=
| IsError (token : string)
| CorrectErrors (sequence : string)
| GenerateCandidates (sequence : string) (topn : nat)
| GenerateFrequencyList (path : string)
| CleanToken (token : string).

(** The instance after a call, whether the call returned or raised. *)
Definition after (self : TransSpell) (c : call) : TransSpell :=
  match c with
  | IsError token => (is_error self token).2
  | GenerateFrequencyList path => (generate_frequency_list self path).1.2
  | CorrectErrors _ | GenerateCandidates _ _ | CleanToken _ => self
  end.

Definition run (self : TransSpell) (calls : list call) : TransSpell :=
  foldl after self calls.

(** A call that leaves the frequency table alone. *)
Definition builds_no_table (c : call) : Prop :=
  match c with
  | GenerateFrequencyList _ => False
  | _ => True
  end.

(** *** Vocabulary of the statements *)

(** The decoded candidate [id] differs from [token], case apart. *)
Definition no_match (token : string) (id : Z) : Prop :=
  matches (tokenizer_decode id) token = false.

(** A candidate once the scan has overwritten it. *)
Definition decoded (id : Z) : candidate := Text (tokenizer_decode id).

(** No space in a token. *)
Definition spaceless (w : string) : Prop := PyStr.has_char " " w = false.

(** Every query the loop can make is answered with at least one candidate:
    the queries are the sentences of space-free tokens with one of them
    masked. *)
Definition candidates_available : Prop :=
  forall temp_sent i,
    Forall spaceless temp_sent -> (i < length temp_sent)%nat ->
    exists id rest,
      generate_candidates (PyStr.join " " (<[i:=mask_token]> temp_sent)) 25
      = Ok (id :: rest).

(** The positions [correct_errors] masks, for the tokens from index [i] on:
    neither index 0 nor a stopword. *)
Fixpoint correctable (i : nat) (tokens : list string) : list nat :=
  match tokens with
  | [] => []
  | token :: rest =>
      if bool_decide (i = 0%nat) || bool_decide (token ∈ stopwords)
      then correctable (S i) rest
      else i :: correctable (S i) rest
  end.

(** ** Facts about Python strings *)

Ltac each_char c := destruct c as [[] [] [] [] [] [] [] []].

Lemma app_cons a (s t : string) : String a s +:+ t = String a (s +:+ t).
Proof. reflexivity. Qed.
Lemma app_empty_l (t : string) : EmptyString +:+ t = t.
Proof. reflexivity. Qed.
Lemma app_empty_r (s : string) : s +:+ EmptyString = s.
Proof. induction s as [|a s IH]; [done|]. by rewrite app_cons, IH. Qed.
Lemma app_assoc' (s t u : string) : (s +:+ t) +:+ u = s +:+ t +:+ u.
Proof. induction s as [|a s IH]; [done|]. by rewrite !app_cons, IH. Qed.
Lemma len_cons a s : PyStr.len (String a s) = PyStr.len s + 1.
Proof. unfold PyStr.len. simpl String.length. lia. Qed.
Lemma len_nonneg s : 0 <= PyStr.len s.
Proof. unfold PyStr.len. lia. Qed.
Lemma len_app s t : PyStr.len (s +:+ t) = PyStr.len s + PyStr.len t.
Proof.
  induction s as [|a s IH]; [rewrite app_empty_l; unfold PyStr.len; simpl; lia|].
  rewrite app_cons, !len_cons, IH. lia.
Qed.

Lemma keeps_lower_char c : keeps (PyStr.lower_char c) = keeps c.
Proof. each_char c; reflexivity. Qed.
Lemma lower_char_idem c : PyStr.lower_char (PyStr.lower_char c) = PyStr.lower_char c.
Proof. each_char c; reflexivity. Qed.
Lemma keeps_not_apostrophe c : keeps c = true -> Ascii.eqb c apostrophe = false.
Proof. each_char c; vm_compute; congruence. Qed.

Lemma skipped_off n i c : i <> n - 2 -> skipped n i c = negb (keeps c).
Proof.
  intros Hi. unfold skipped, keeps.
  destruct (Z.eqb_spec i (n - 2)) as [|_]; [done|].
  destruct (PyStr.is_word c), (Ascii.eqb c apostrophe) eqn:Ha,
    (Ascii.eqb c hyphen) eqn:Hh; try reflexivity.
  apply Ascii.eqb_eq in Ha. apply Ascii.eqb_eq in Hh. subst. discriminate.
Qed.
Lemma skipped_at n c : skipped n (n - 2) c = negb (keeps c || Ascii.eqb c apostrophe).
Proof.
  unfold skipped, keeps. rewrite Z.eqb_refl.
  by destruct (PyStr.is_word c), (Ascii.eqb c apostrophe), (Ascii.eqb c hyphen).
Qed.

Lemma clean_chars_off s : forall n i,
  n - 2 < i \/ i + PyStr.len s <= n - 2 -> clean_chars n i s = plain s.
Proof.
  induction s as [|c s IH]; intros n i Hi; [done|].
  rewrite len_cons in Hi. pose proof (len_nonneg s).
  simpl. rewrite skipped_off by lia. rewrite IH by lia.
  by destruct (keeps c).
Qed.

Lemma clean_chars_app s t : forall n i,
  clean_chars n i (s +:+ t) = clean_chars n i s +:+ clean_chars n (i + PyStr.len s) t.
Proof.
  induction s as [|c s IH]; intros n i.
  - rewrite !app_empty_l. simpl. unfold PyStr.len. simpl. by rewrite Z.add_0_r.
  - rewrite app_cons, len_cons. simpl. rewrite IH.
    replace (i + 1 + PyStr.len s) with (i + (PyStr.len s + 1)) by lia.
    by destruct (skipped n i c).
Qed.

Lemma plain_settled s : settled (plain s) = true.
Proof.
  induction s as [|c s IH]; [done|]. simpl.
  destruct (keeps c) eqn:Hk; [|done]. simpl.
  rewrite keeps_lower_char, Hk, lower_char_idem, Ascii.eqb_refl. done.
Qed.

Lemma clean_chars_settled s : forall n i, settled s = true -> clean_chars n i s = s.
Proof.
  induction s as [|c s IH]; intros n i Hs; [done|].
  simpl in Hs. apply andb_prop in Hs as [Hs Hr]. apply andb_prop in Hs as [Hk Hl].
  apply Ascii.eqb_eq in Hl. simpl.
  assert (skipped n i c = false) as ->.
  { unfold skipped. unfold keeps in Hk.
    destruct (PyStr.is_word c); [done|]. simpl in *. rewrite Hk.
    pose proof (keeps_not_apostrophe c) as Ha. unfold keeps in Ha. rewrite Hk, orb_true_r in Ha.
    rewrite (Ha eq_refl). done. }
  by rewrite Hl, IH.
Qed.

Lemma split_not_nil sep s : PyStr.split sep s <> [].
Proof.
  destruct s as [|c s]; simpl; [done|].
  destruct (Ascii.eqb c sep); [done|]. by destruct (PyStr.split sep s).
Qed.

Lemma join_cons sep w v (ws : list string) :
  PyStr.join sep (w :: v :: ws) = w +:+ sep +:+ PyStr.join sep (v :: ws).
Proof. reflexivity. Qed.

Lemma join_head sep c w (ws : list string) :
  PyStr.join sep (String c w :: ws) = String c (PyStr.join sep (w :: ws)).
Proof. destruct ws; reflexivity. Qed.

Lemma join_split sep s :
  PyStr.join (String sep EmptyString) (PyStr.split sep s) = s.
Proof.
  induction s as [|c s IH]; [done|]. simpl PyStr.split.
  destruct (Ascii.eqb_spec c sep) as [->|Hc].
  - destruct (PyStr.split sep s) as [|w ws] eqn:Hs; [by apply split_not_nil in Hs|].
    rewrite join_cons, IH. reflexivity.
  - destruct (PyStr.split sep s) as [|w ws] eqn:Hs; [by apply split_not_nil in Hs|].
    by rewrite join_head, IH.
Qed.

Lemma split_field sep w :
  PyStr.has_char sep w = false -> PyStr.split sep w = [w].
Proof.
  induction w as [|c w IH]; [done|]. simpl.
  intros [Hc Hw]%orb_false_elim. by rewrite Hc, IH.
Qed.

Lemma split_field_sep sep w rest :
  PyStr.has_char sep w = false ->
  PyStr.split sep (w +:+ String sep rest) = w :: PyStr.split sep rest.
Proof.
  induction w as [|c w IH].
  - intros _. rewrite app_empty_l. simpl. by rewrite Ascii.eqb_refl.
  - simpl PyStr.has_char. intros [Hc Hw]%orb_false_elim.
    rewrite app_cons. simpl PyStr.split. by rewrite Hc, IH.
Qed.

Lemma split_join sep (l : list string) :
  l <> [] ->
  Forall (fun w => PyStr.has_char sep w = false) l ->
  PyStr.split sep (PyStr.join (String sep EmptyString) l) = l.
Proof.
  induction l as [|w ws IH]; [done|]. intros _ Hl.
  apply Forall_cons in Hl as [Hw Hws].
  destruct ws as [|v ws]; [by apply split_field|].
  rewrite join_cons, app_cons, app_empty_l, split_field_sep by done.
  by rewrite IH.
Qed.

Lemma split_fields_clean sep s :
  Forall (fun w => PyStr.has_char sep w = false) (PyStr.split sep s).
Proof.
  induction s as [|c s IH]; simpl; [by repeat constructor|].
  destruct (Ascii.eqb c sep) eqn:Hc; [by constructor|].
  destruct (PyStr.split sep s) as [|w ws]; [repeat constructor; simpl; by rewrite Hc|].
  apply Forall_cons in IH as [Hw Hws]. constructor; [|done]. simpl. by rewrite Hc.
Qed.

(** ** TokenCleaner *)

Lemma last_two (s : string) :
  PyStr.len s < 2 \/ exists p a b, s = p +:+ String a (String b EmptyString).
Proof.
  induction s as [|c s IH]; [left; unfold PyStr.len; simpl; lia|].
  destruct IH as [Hs|(p & a & b & ->)].
  - destruct s as [|d [|e s]].
    + left. unfold PyStr.len. simpl. lia.
    + right. by exists EmptyString, c, d.
    + rewrite !len_cons in Hs. pose proof (len_nonneg s). lia.
  - right. by exists (String c p), a, b.
Qed.

Lemma stranded_last_two p a b :
  apostrophe_stranded (p +:+ String a (String b EmptyString))
  = Ascii.eqb a apostrophe && negb (keeps b).
Proof.
  induction p as [|c p IH]; [done|].
  rewrite app_cons. simpl. rewrite <- IH.
  destruct p as [|d [|e p]]; reflexivity.
Qed.

Lemma stranded_short s : PyStr.len s < 2 -> apostrophe_stranded s = false.
Proof.
  destruct s as [|c [|d s]]; [done..|].
  rewrite !len_cons. pose proof (len_nonneg s). lia.
Qed.

Lemma clean_token_short s : PyStr.len s < 2 -> clean_token s = plain s.
Proof. intros Hs. unfold clean_token. apply clean_chars_off. lia. Qed.

Lemma clean_token_last_two p a b :
  clean_token (p +:+ String a (String b EmptyString))
  = plain p
    +:+ (if keeps a || Ascii.eqb a apostrophe
         then String (PyStr.lower_char a) EmptyString else EmptyString)
    +:+ plain (String b EmptyString).
Proof.
  unfold clean_token. rewrite len_app, !len_cons.
  change (PyStr.len EmptyString) with 0.
  rewrite clean_chars_app. pose proof (len_nonneg p).
  rewrite (clean_chars_off p) by lia. f_equal.
  rewrite Z.add_0_l. simpl clean_chars.
  replace (PyStr.len p) with (PyStr.len p + (0 + 1 + 1) - 2) at 2 by lia.
  rewrite skipped_at. rewrite skipped_off by lia.
  destruct (keeps a || Ascii.eqb a apostrophe); simpl; by destruct (keeps b).
Qed.

Lemma plain_fixed s : settled s = true -> plain s = s.
Proof. intros Hs. rewrite <- (clean_chars_off s 0 0) by lia. by apply clean_chars_settled. Qed.

Lemma settled_app s t : settled (s +:+ t) = settled s && settled t.
Proof.
  induction s as [|c s IH]; [done|].
  rewrite app_cons. simpl. rewrite IH. by rewrite andb_assoc.
Qed.

(** C2 (amended): cleaning a cleaned token gives the same token exactly
    when the token does not end in an apostrophe followed by one character
    that cleaning drops; there the apostrophe, kept for its place in the raw
    token, is last in the cleaned one and goes at the second cleaning. *)
Theorem clean_token_idempotent_iff (t : string) :
  clean_token (clean_token t) = clean_token t <-> apostrophe_stranded t = false.
Proof.
  destruct (last_two t) as [Hs|(p & a & b & ->)].
  - rewrite (stranded_short _ Hs), (clean_token_short _ Hs).
    split; [done|intros _]. unfold clean_token.
    apply clean_chars_settled, plain_settled.
  - rewrite stranded_last_two, clean_token_last_two.
    destruct (Ascii.eqb a apostrophe) eqn:Ha.
    + apply Ascii.eqb_eq in Ha as ->. rewrite orb_true_r. simpl plain.
      change (PyStr.lower_char apostrophe) with apostrophe.
      destruct (keeps b) eqn:Hb; simpl.
      * split; [done|intros _]. rewrite !app_cons, !app_empty_l.
        rewrite clean_token_last_two. simpl plain.
        rewrite (keeps_lower_char b), Hb, lower_char_idem.
        rewrite (plain_fixed (plain p)) by apply plain_settled.
        reflexivity.
      * split; [|done]. intros Heq. exfalso.
        rewrite app_empty_r in Heq.
        unfold clean_token in Heq. rewrite clean_chars_app in Heq.
        rewrite (clean_chars_settled (plain p)) in Heq by apply plain_settled.
        apply (inj (String.app (plain p))) in Heq.
        rewrite len_app, len_cons in Heq. change (PyStr.len EmptyString) with 0 in Heq.
        simpl in Heq. rewrite skipped_off in Heq by lia. done.
    + rewrite orb_false_r. simpl andb. split; [done|intros _].
      unfold clean_token. apply clean_chars_settled.
      rewrite !settled_app, plain_settled. simpl.
      destruct (keeps a) eqn:Hka; simpl.
      * rewrite keeps_lower_char, Hka, lower_char_idem, Ascii.eqb_refl. simpl.
        destruct (keeps b) eqn:Hkb; [|done]. simpl.
        by rewrite keeps_lower_char, Hkb, lower_char_idem, Ascii.eqb_refl.
      * destruct (keeps b) eqn:Hkb; [|done]. simpl.
        by rewrite keeps_lower_char, Hkb, lower_char_idem, Ascii.eqb_refl.
Qed.

(** ** ErrorDetector *)

Lemma load_dict_us_inv self self1 :
  load_dict_us self = Ok self1 ->
  exists us, us_provider self = Ok us /\ dict_us self1 = Some us
    /\ dict_gb self1 = dict_gb self
    /\ frequency_list self1 = frequency_list self
    /\ char_minimum self1 = char_minimum self
    /\ frequency_maximum self1 = frequency_maximum self.
Proof.
  unfold load_dict_us, us_provider. destruct (dict_us self) as [d|] eqn:Hd.
  - intros [= <-]. by exists d.
  - destruct (enchant_Dict "en_US") as [d|e]; simpl; [|done].
    intros [= <-]. by exists d.
Qed.

Lemma load_dict_gb_inv self self2 :
  load_dict_gb self = Ok self2 ->
  exists gb, gb_provider self = Ok gb /\ dict_gb self2 = Some gb
    /\ dict_us self2 = dict_us self
    /\ frequency_list self2 = frequency_list self
    /\ char_minimum self2 = char_minimum self
    /\ frequency_maximum self2 = frequency_maximum self.
Proof.
  unfold load_dict_gb, gb_provider. destruct (dict_gb self) as [d|] eqn:Hd.
  - intros [= <-]. by exists d.
  - destruct (enchant_Dict "en_GB") as [d|e]; simpl; [|done].
    intros [= <-]. by exists d.
Qed.

Lemma load_dict_us_Raise self e :
  load_dict_us self = Raise e <-> us_provider self = Raise e.
Proof.
  unfold load_dict_us, us_provider.
  destruct (dict_us self); [split; discriminate|].
  destruct (enchant_Dict "en_US"); simpl; split; congruence.
Qed.

Lemma load_dict_gb_Raise self e :
  load_dict_gb self = Raise e <-> gb_provider self = Raise e.
Proof.
  unfold load_dict_gb, gb_provider.
  destruct (dict_gb self); [split; discriminate|].
  destruct (enchant_Dict "en_GB"); simpl; split; congruence.
Qed.

Lemma load_dict_us_total self us :
  us_provider self = Ok us -> exists self1, load_dict_us self = Ok self1.
Proof.
  unfold load_dict_us, us_provider. destruct (dict_us self); [by eauto|].
  intros ->. simpl. by eauto.
Qed.

Lemma load_dict_gb_total self gb :
  gb_provider self = Ok gb -> exists self2, load_dict_gb self = Ok self2.
Proof.
  unfold load_dict_gb, gb_provider. destruct (dict_gb self); [by eauto|].
  intros ->. simpl. by eauto.
Qed.

Lemma gb_provider_load_us self self1 :
  load_dict_us self = Ok self1 -> gb_provider self1 = gb_provider self.
Proof.
  intros (us & _ & _ & Hgb & _)%load_dict_us_inv. unfold gb_provider. by rewrite Hgb.
Qed.

(** What a returning call of [is_error] looks like. *)
Lemma is_error_Ok_inv self token v self' :
  is_error self token = (Ok v, self') ->
  exists us gb,
    us_provider self = Ok us /\ gb_provider self = Ok gb
    /\ dict_us self' = Some us /\ dict_gb self' = Some gb
    /\ frequency_list self' = frequency_list self
    /\ char_minimum self' = char_minimum self
    /\ frequency_maximum self' = frequency_maximum self
    /\ v = verdict self' (clean_token token).
Proof.
  unfold is_error.
  destruct (load_dict_us self) as [self1|e] eqn:H1; [|done].
  destruct (load_dict_gb self1) as [self2|e] eqn:H2; [|done].
  intros [= <- <-].
  pose proof (gb_provider_load_us _ _ H1) as Hg.
  apply load_dict_us_inv in H1 as (us & Hus & Hd1 & Hgb1 & Hf1 & Hc1 & Hm1).
  apply load_dict_gb_inv in H2 as (gb & Hgb & Hd2 & Hus2 & Hf2 & Hc2 & Hm2).
  exists us, gb. rewrite <- Hg. repeat split; congruence.
Qed.

Lemma is_error_returns self token us gb :
  us_provider self = Ok us -> gb_provider self = Ok gb ->
  exists v self', is_error self token = (Ok v, self').
Proof.
  intros Hus Hgb. unfold is_error.
  destruct (load_dict_us_total _ _ Hus) as [self1 H1]. rewrite H1.
  rewrite <- (gb_provider_load_us _ _ H1) in Hgb.
  destruct (load_dict_gb_total _ _ Hgb) as [self2 H2]. rewrite H2. by eauto.
Qed.

Lemma frequency_rule_true_iff self token :
  frequency_rule self token = true <->
  exists c, frequency_list self = Some c /\ c <> ∅
            /\ frequency_maximum self < counter_get c token.
Proof.
  unfold frequency_rule. destruct (frequency_list self) as [c|].
  - case_bool_decide as Hc.
    + split; [done|]. intros (c' & [= <-] & Hne & _). done.
    + rewrite Z.ltb_lt. split; [by eauto|]. by intros (c' & [= <-] & _ & Hlt).
  - split; [done|]. by intros (c' & ? & _).
Qed.

Lemma frequency_rule_ext self self' token :
  frequency_list self' = frequency_list self ->
  frequency_maximum self' = frequency_maximum self ->
  frequency_rule self' token = frequency_rule self token.
Proof. unfold frequency_rule. by intros -> ->. Qed.

Lemma verdict_without_frequency self token :
  frequency_rule self token = false ->
  verdict self token
  = negb (length_rule self token) && negb (dictionary_rule self token).
Proof.
  unfold verdict. intros ->.
  by destruct (length_rule self token), (dictionary_rule self token).
Qed.

(** C3 (amended): when the count of the cleaned token equals the maximum
    frequency, the frequency rule does not fire, the comparison being a
    strict greater-than; a returning [is_error] then answers by the length
    rule and the dictionary rule alone. *)
Theorem is_error_frequency_boundary self token c :
  frequency_list self = Some c ->
  counter_get c (clean_token token) = frequency_maximum self ->
  frequency_rule self (clean_token token) = false
  /\ forall v self', is_error self token = (Ok v, self') ->
       v = negb (length_rule self' (clean_token token))
           && negb (dictionary_rule self' (clean_token token)).
Proof.
  intros Hc Heq.
  assert (frequency_rule self (clean_token token) = false) as Hrule.
  { apply not_true_is_false. intros (c' & Hc' & _ & Hlt)%frequency_rule_true_iff.
    rewrite Hc in Hc'. injection Hc' as <-. lia. }
  split; [done|]. intros v self' Hrun.
  apply is_error_Ok_inv in Hrun as (us & gb & _ & _ & _ & _ & Hf & _ & Hm & ->).
  apply verdict_without_frequency.
  by rewrite (frequency_rule_ext self self').
Qed.

(** C8: if one of the two dictionaries knows the cleaned token, [is_error]
    answers [False], whatever the frequency table holds. *)
Theorem is_error_known_word self token us gb :
  us_provider self = Ok us ->
  gb_provider self = Ok gb ->
  check us (clean_token token) = true \/ check gb (clean_token token) = true ->
  exists self', is_error self token = (Ok false, self').
Proof.
  intros Hus Hgb Hknown.
  destruct (is_error_returns self token us gb Hus Hgb) as (v & self' & Hrun).
  exists self'. rewrite Hrun. do 2 f_equal.
  apply is_error_Ok_inv in Hrun
    as (us' & gb' & Hus' & Hgb' & Hdu & Hdg & _ & _ & _ & ->).
  assert (us' = us) as -> by congruence. assert (gb' = gb) as -> by congruence.
  unfold verdict, dictionary_rule. rewrite Hdu, Hdg.
  destruct (length_rule self' _); [done|].
  destruct (frequency_rule self' _); [done|].
  by destruct Hknown as [-> | ->]; rewrite ?orb_true_r.
Qed.

Lemma after_dict_us self c d :
  dict_us self = Some d -> dict_us (after self c) = Some d.
Proof.
  intros Hd. destruct c as [token| | |path|]; simpl; try done.
  - unfold is_error.
    destruct (load_dict_us self) as [self1|e] eqn:H1; [|done].
    assert (self1 = self) as ->.
    { unfold load_dict_us in H1. rewrite Hd in H1. congruence. }
    destruct (load_dict_gb self) as [self2|e] eqn:H2; [|done].
    apply load_dict_gb_inv in H2 as (gb & _ & _ & Hus & _). simpl. congruence.
  - unfold generate_frequency_list.
    destruct (read_csv path) as [df|[]]; simpl; try done.
    destruct (df !! "answers") as [texts|]; [|done].
    by destruct (count_answers texts ∅).
Qed.

Lemma after_dict_gb self c d :
  dict_gb self = Some d -> dict_gb (after self c) = Some d.
Proof.
  intros Hd. destruct c as [token| | |path|]; simpl; try done.
  - unfold is_error.
    destruct (load_dict_us self) as [self1|e] eqn:H1; [|done].
    apply load_dict_us_inv in H1 as (us & _ & _ & Hgb & _).
    destruct (load_dict_gb self1) as [self2|e] eqn:H2; simpl; [|congruence].
    unfold load_dict_gb in H2. rewrite Hgb, Hd in H2. congruence.
  - unfold generate_frequency_list.
    destruct (read_csv path) as [df|[]]; simpl; try done.
    destruct (df !! "answers") as [texts|]; [|done].
    by destruct (count_answers texts ∅).
Qed.

Lemma run_dict_us calls : forall self d,
  dict_us self = Some d -> dict_us (run self calls) = Some d.
Proof.
  induction calls as [|c calls IH]; intros self d Hd; [done|].
  apply IH. by apply after_dict_us.
Qed.

Lemma run_dict_gb calls : forall self d,
  dict_gb self = Some d -> dict_gb (run self calls) = Some d.
Proof.
  induction calls as [|c calls IH]; intros self d Hd; [done|].
  apply IH. by apply after_dict_gb.
Qed.

(** C10: [is_error] makes sure of both providers before it looks at the
    token: a provider that cannot be constructed makes the call raise for
    every token, short ones included; a returning call leaves both providers
    set to the ones it used; and a provider, once set, stays the same through
    every later call on the instance. *)
Theorem is_error_dictionaries_first self token :
  (forall e, us_provider self = Raise e -> is_error self token = (Raise e, self))
  /\ (forall us e, us_provider self = Ok us -> gb_provider self = Raise e ->
        (is_error self token).1 = Raise e
        /\ dict_us (is_error self token).2 = Some us)
  /\ (forall v self', is_error self token = (Ok v, self') ->
        exists us gb, us_provider self = Ok us /\ gb_provider self = Ok gb
                      /\ dict_us self' = Some us /\ dict_gb self' = Some gb)
  /\ (forall calls d, dict_us self = Some d -> dict_us (run self calls) = Some d)
  /\ (forall calls d, dict_gb self = Some d -> dict_gb (run self calls) = Some d).
Proof.
  split; [|split; [|split; [|split]]].
  - intros e He%load_dict_us_Raise. unfold is_error. by rewrite He.
  - intros us e Hus Hgb. unfold is_error.
    destruct (load_dict_us_total _ _ Hus) as [self1 H1]. rewrite H1.
    rewrite <- (gb_provider_load_us _ _ H1) in Hgb.
    apply load_dict_gb_Raise in Hgb. rewrite Hgb. simpl. split; [done|].
    apply load_dict_us_inv in H1 as (us' & Hus' & Hd & _). congruence.
  - intros v self' (us & gb & ? & ? & ? & ? & _)%is_error_Ok_inv. by exists us, gb.
  - intros calls d. apply run_dict_us.
  - intros calls d. apply run_dict_gb.
Qed.

(** ** FrequencyIndex and the constructor *)

Lemma counter_get_insert (c : Counter) token token' n :
  counter_get (<[token:=n]> c) token'
  = if decide (token = token') then n else counter_get c token'.
Proof.
  unfold counter_get. rewrite lookup_insert. by case_decide.
Qed.

(** [update] adds, to each count, the occurrences in the list. *)
Lemma counter_update_get tokens : forall (c : Counter) token,
  counter_get (counter_update c tokens) token
  = counter_get c token + Z.of_nat (occurrences token tokens).
Proof.
  induction tokens as [|t tokens IH]; intros c token; simpl; [lia|].
  unfold counter_update in *. simpl. rewrite IH, counter_get_insert.
  destruct (String.eqb_spec t token) as [->|Hne].
  - rewrite decide_True by done. lia.
  - rewrite decide_False by done. lia.
Qed.


Lemma is_error_frequency_list self token :
  frequency_list (is_error self token).2 = frequency_list self.
Proof.
  unfold is_error.
  destruct (load_dict_us self) as [self1|e] eqn:H1; [|done].
  apply load_dict_us_inv in H1 as (us & _ & _ & _ & Hf1 & _).
  destruct (load_dict_gb self1) as [self2|e] eqn:H2; [|done].
  apply load_dict_gb_inv in H2 as (gb & _ & _ & _ & Hf2 & _).
  simpl. congruence.
Qed.

Lemma run_frequency_list calls : forall self,
  Forall builds_no_table calls ->
  frequency_list (run self calls) = frequency_list self.
Proof.
  induction calls as [|c calls IH]; intros self Hcalls; [done|].
  apply Forall_cons in Hcalls as [Hc Hcalls]. simpl.
  unfold run in IH. rewrite IH by done.
  destruct c; simpl in *; try done. apply is_error_frequency_list.
Qed.

Lemma frequency_rule_no_table self token :
  frequency_list self = None -> frequency_rule self token = false.
Proof. unfold frequency_rule. by intros ->. Qed.

(** C7: with a corpus path that names no file the constructor returns, the
    instance is the one built without a path (no frequency table) and the
    message is printed (for the empty path, which is never read, nothing is
    printed); every later [is_error] skips the frequency rule. *)
Theorem init_missing_corpus minimum maximum path :
  read_csv path = Raise FileNotFoundError ->
  __init__ minimum maximum (Some path)
  = (Ok (mkTransSpell minimum maximum None None None),
     match path with EmptyString => [] | _ => [no_corpus_message] end)
  /\ (__init__ minimum maximum None).1
     = Ok (mkTransSpell minimum maximum None None None)
  /\ forall calls, Forall builds_no_table calls ->
       forall token,
         frequency_list (run (mkTransSpell minimum maximum None None None) calls) = None
         /\ frequency_rule (run (mkTransSpell minimum maximum None None None) calls)
              (clean_token token) = false
         /\ forall v self',
              is_error (run (mkTransSpell minimum maximum None None None) calls) token
              = (Ok v, self') ->
              v = negb (length_rule self' (clean_token token))
                  && negb (dictionary_rule self' (clean_token token)).
Proof.
  intros Hmissing. split; [|split; [done|]].
  - unfold __init__. destruct path as [|c path]; [done|].
    unfold generate_frequency_list. by rewrite Hmissing.
  - intros calls Hcalls token.
    set (self := run _ calls).
    assert (frequency_list self = None) as Hnone.
    { unfold self. by rewrite run_frequency_list. }
    split; [done|]. split; [by apply frequency_rule_no_table|].
    intros v self' Hrun.
    apply is_error_Ok_inv in Hrun as (us & gb & _ & _ & _ & _ & Hf & _ & _ & ->).
    apply verdict_without_frequency, frequency_rule_no_table. congruence.
Qed.

Lemma generate_frequency_list_returns_None self path r self' out :
  generate_frequency_list self path = (Ok r, self', out) -> r = None.
Proof.
  unfold generate_frequency_list.
  destruct (read_csv path) as [df|[]]; try congruence.
  destruct (df !! "answers") as [texts|]; [|congruence].
  destruct (count_answers texts ∅) as [[[]|e] c]; simpl; congruence.
Qed.

(** C1 (what the code does): whatever the corpus, the instance a returning
    constructor yields has no frequency table: the value
    [generate_frequency_list] returns, always [None], is stored over the
    table the call has just built. *)
Theorem init_discards_frequency_table minimum maximum corpus_path self out :
  __init__ minimum maximum corpus_path = (Ok self, out) ->
  frequency_list self = None.
Proof.
  unfold __init__. destruct corpus_path as [[|c path]|]; try by intros [= <- _].
  destruct (generate_frequency_list _ _) as [[r self1] out1] eqn:Hgen.
  destruct r as [r|e]; simpl; [|done].
  apply generate_frequency_list_returns_None in Hgen as ->.
  by intros [= <- _].
Qed.

Lemma count_answers_texts texts : forall c strs,
  all_texts texts = Some strs ->
  count_answers texts c
  = (Ok tt, foldl (fun acc text => counter_update acc (answer_tokens text)) c strs).
Proof.
  induction texts as [|[text|] texts IH]; intros c strs; simpl.
  - by intros [= <-].
  - destruct (all_texts texts) as [strs'|]; simpl; [|done].
    intros [= <-]. simpl. by apply IH.
  - done.
Qed.

(** Called on its own, [generate_frequency_list] does leave the table of the
    corpus on the instance. *)
Lemma generate_frequency_list_builds self path df texts strs :
  read_csv path = Ok df ->
  df !! "answers" = Some texts ->
  all_texts texts = Some strs ->
  generate_frequency_list self path
  = (Ok None,
     set_frequency_list
       (Some (foldl (fun acc text => counter_update acc (answer_tokens text)) ∅ strs))
       self,
     []).
Proof.
  intros Hread Hcol Htexts. unfold generate_frequency_list.
  rewrite Hread, Hcol. by rewrite (count_answers_texts _ _ _ Htexts).
Qed.

(** ** SentenceCorrector *)

Lemma traced_bind_Ok {A B} (m : traced A) (f : A -> traced B) b tr :
  m ≫= f = (Ok b, tr) ->
  exists a t1 t2, m = (Ok a, t1) /\ f a = (Ok b, t2) /\ tr = t1 ++ t2.
Proof.
  unfold mbind, traced_bind. destruct m as [[a|e] t1]; [|done].
  destruct (f a) as [r t2] eqn:Hf. intros [= -> <-]. by exists a, t1, t2.
Qed.

Lemma setitem_Ok {A} (l : list A) i x :
  (i < length l)%nat -> setitem l i x = Ok (<[i:=x]> l).
Proof. intros Hi. unfold setitem. by rewrite bool_decide_eq_true_2. Qed.

Lemma setitem_Ok_inv {A} (l l' : list A) i x :
  setitem l i x = Ok l' -> (i < length l)%nat /\ l' = <[i:=x]> l.
Proof. unfold setitem. case_bool_decide; [|done]. by intros [= <-]. Qed.

Lemma scan_no_match token results :
  Forall (no_match token) results ->
  scan token results = (decoded <$> results, false).
Proof.
  induction 1 as [|id rest Hid _ IH]; [done|].
  simpl. unfold no_match in Hid. by rewrite Hid, IH.
Qed.

Lemma scan_first_match token before id after :
  Forall (no_match token) before ->
  matches (tokenizer_decode id) token = true ->
  scan token (before ++ id :: after)
  = ((decoded <$> before) ++ decoded id :: (Code <$> after), true).
Proof.
  intros Hbefore Hid. induction Hbefore as [|id' rest Hid' _ IH].
  - simpl. by rewrite Hid.
  - simpl. unfold no_match in Hid'. by rewrite Hid', IH.
Qed.

Lemma first_match token results :
  Exists (fun id => matches (tokenizer_decode id) token = true) results ->
  exists before id after,
    results = before ++ id :: after
    /\ Forall (no_match token) before
    /\ matches (tokenizer_decode id) token = true.
Proof.
  induction results as [|id rest IH]; intros Hex; [by apply Exists_nil in Hex|].
  destruct (matches (tokenizer_decode id) token) eqn:Hid.
  - by exists [], id, rest.
  - apply Exists_cons in Hex as [Hex|Hex]; [congruence|].
    destruct (IH Hex) as (before & id' & after & -> & Hbefore & Hid').
    exists (id :: before), id', after. repeat split; [|done]. by constructor.
Qed.

Lemma scan_not_contained token results results' :
  scan token results = (results', false) -> results' = decoded <$> results.
Proof.
  revert results'. induction results as [|id rest IH]; intros results'; simpl.
  - by intros [= <-].
  - destruct (matches (tokenizer_decode id) token); [done|].
    destruct (scan token rest) as [rest' contained]. intros [= <- ->].
    by rewrite (IH rest').
Qed.

(** What a returning pass over one position has done. *)
Lemma correct_position_Ok_inv i token temp_sent temp_sent' tr :
  correct_position i token temp_sent = (Ok temp_sent', tr) ->
  (i < length temp_sent)%nat
  /\ tr = [PyStr.join " " (<[i:=mask_token]> temp_sent)]
  /\ (temp_sent' = temp_sent
      \/ exists id, temp_sent' = <[i:=tokenizer_decode id]> temp_sent).
Proof.
  unfold correct_position. intros Hrun.
  apply traced_bind_Ok in Hrun as (sent & t1 & t2 & Hset & Hrun & ->).
  unfold lift in Hset. injection Hset as Hset <-.
  apply setitem_Ok_inv in Hset as [Hi ->].
  apply traced_bind_Ok in Hrun as (results & t1 & t3 & Hq & Hrun & ->).
  unfold query in Hq. injection Hq as Hq <-.
  split; [done|].
  destruct (scan token results) as [results' contained] eqn:Hscan.
  destruct contained.
  - injection Hrun as <- <-. by auto.
  - apply scan_not_contained in Hscan as ->.
    destruct results as [|id rest]; simpl in Hrun; [done|].
    unfold lift in Hrun. injection Hrun as Hset <-.
    apply setitem_Ok_inv in Hset as [_ ->]. split; [done|]. right. by exists id.
Qed.

Lemma correct_loop_inv tokens : forall i temp_sent temp_sent' tr,
  correct_loop i tokens temp_sent = (Ok temp_sent', tr) ->
  length temp_sent' = length temp_sent
  /\ (forall j, (j < i)%nat -> temp_sent' !! j = temp_sent !! j)
  /\ (forall j token, tokens !! j = Some token ->
        (i + j = 0)%nat \/ token ∈ stopwords ->
        temp_sent' !! (i + j)%nat = temp_sent !! (i + j)%nat)
  /\ ((forall id, spaceless (tokenizer_decode id)) ->
      Forall spaceless temp_sent -> Forall spaceless temp_sent').
Proof.
  induction tokens as [|token rest IH]; intros i temp_sent temp_sent' tr Hrun.
  { injection Hrun as <- <-. by repeat split. }
  simpl in Hrun.
  destruct (bool_decide (i = 0%nat) || bool_decide (token ∈ stopwords)) eqn:Hskip.
  - apply IH in Hrun as (Hlen & Hlow & Hkeep & Hsp).
    split; [done|]. split; [intros j Hj; apply Hlow; lia|]. split; [|done].
    intros [|j] tok Htok Hcond.
    + apply Hlow. lia.
    + replace (i + S j)%nat with (S i + j)%nat by lia.
      apply (Hkeep j tok Htok). destruct Hcond; [lia|by right].
  - apply orb_false_elim in Hskip as [Hi Hstop].
    apply bool_decide_eq_false in Hi. apply bool_decide_eq_false in Hstop.
    apply traced_bind_Ok in Hrun as (temp1 & t1 & t2 & Hpos & Hrun & ->).
    apply correct_position_Ok_inv in Hpos as (Hlt & _ & Hpos).
    apply IH in Hrun as (Hlen & Hlow & Hkeep & Hsp).
    assert (length temp1 = length temp_sent) as Hlen1.
    { destruct Hpos as [->|[id ->]]; [done|apply length_insert]. }
    assert (forall j, j <> i -> temp1 !! j = temp_sent !! j) as Hother.
    { intros j Hj. destruct Hpos as [->|[id ->]]; [done|].
      by apply list_lookup_insert_ne. }
    split; [congruence|]. split.
    { intros j Hj. rewrite Hlow by lia. apply Hother. lia. }
    split.
    + intros [|j] tok Htok Hcond.
      * simpl in Htok. injection Htok as <-. destruct Hcond; [lia|done].
      * replace (i + S j)%nat with (S i + j)%nat by lia.
        rewrite (Hkeep j tok Htok) by (destruct Hcond; [lia|by right]).
        apply Hother. lia.
    + intros Hdec Hall. apply Hsp; [done|].
      destruct Hpos as [->|[id ->]]; [done|]. by apply Forall_insert.
Qed.

Lemma mask_positions_found input_str : forall i,
  mask_token_id ∈ input_str -> mask_positions i input_str <> [].
Proof.
  induction input_str as [|id rest IH]; intros i Hin; [by apply not_elem_of_nil in Hin|].
  simpl. destruct (Z.eqb_spec id mask_token_id) as [->|Hne]; [done|].
  apply elem_of_cons in Hin as [Heq|Hin]; [congruence|]. by apply IH.
Qed.

Lemma correct_loop_unfold i token rest temp_sent :
  i <> 0%nat -> token ∉ stopwords ->
  correct_loop i (token :: rest) temp_sent
  = correct_position i token temp_sent ≫= correct_loop (S i) rest.
Proof.
  intros Hi Hstop. simpl.
  by rewrite (bool_decide_eq_false_2 _ Hi), (bool_decide_eq_false_2 _ Hstop).
Qed.

Lemma correct_position_run i token temp_sent results :
  (i < length temp_sent)%nat ->
  generate_candidates (PyStr.join " " (<[i:=mask_token]> temp_sent)) 25 = Ok results ->
  correct_position i token temp_sent
  = (let '(results', contained) := scan token results in
     if contained then Ok temp_sent
     else match results' with
          | [] => Raise IndexError
          | Text suggestion :: _ => setitem temp_sent i suggestion
          | Code _ :: _ => Raise TypeError
          end,
     [PyStr.join " " (<[i:=mask_token]> temp_sent)]).
Proof.
  intros Hi Hgen. unfold correct_position.
  rewrite (setitem_Ok _ _ _ Hi). unfold lift, query, mbind, traced_bind.
  rewrite Hgen. destruct (scan token results) as [results' []]; [done|].
  by destruct results' as [|[id|s] rest].
Qed.

(** The loop body at a position whose query returned [results]: if some
    decoded candidate equals the token up to case, the token stays and the
    scan has decoded the candidates up to the first match and no further; if
    none does, the token becomes the decoded candidate at index 0, with no
    other condition (and with no candidate at all, the index raises). *)
Theorem correct_position_decision i token temp_sent results :
  (i < length temp_sent)%nat ->
  generate_candidates (PyStr.join " " (<[i:=mask_token]> temp_sent)) 25 = Ok results ->
  (Exists (fun id => matches (tokenizer_decode id) token = true) results ->
     correct_position i token temp_sent
     = (Ok temp_sent, [PyStr.join " " (<[i:=mask_token]> temp_sent)])
     /\ exists before id after,
          results = before ++ id :: after
          /\ Forall (no_match token) before
          /\ matches (tokenizer_decode id) token = true
          /\ scan token results
             = ((decoded <$> before) ++ decoded id :: (Code <$> after), true))
  /\ (Forall (no_match token) results ->
      match results with
      | id :: _ =>
          correct_position i token temp_sent
          = (Ok (<[i:=tokenizer_decode id]> temp_sent),
             [PyStr.join " " (<[i:=mask_token]> temp_sent)])
      | [] =>
          correct_position i token temp_sent
          = (Raise IndexError, [PyStr.join " " (<[i:=mask_token]> temp_sent)])
      end).
Proof.
  intros Hi Hgen. rewrite (correct_position_run _ _ _ _ Hi Hgen). split.
  - intros (before & id & after & -> & Hbefore & Hid)%first_match.
    rewrite (scan_first_match _ _ _ _ Hbefore Hid). split; [done|].
    by exists before, id, after.
  - intros Hnone. rewrite (scan_no_match _ _ Hnone).
    destruct results as [|id rest]; [done|]. simpl.
    by rewrite (setitem_Ok _ _ _ Hi).
Qed.

Lemma correct_position_returns i token temp_sent :
  candidates_available ->
  Forall spaceless temp_sent ->
  (i < length temp_sent)%nat ->
  exists temp_sent' tr,
    correct_position i token temp_sent = (Ok temp_sent', tr).
Proof.
  intros Hgen Hsp Hi.
  destruct (Hgen temp_sent i Hsp Hi) as (id & rest & Hq).
  rewrite (correct_position_run _ _ _ _ Hi Hq).
  destruct (scan token (id :: rest)) as [results' contained] eqn:Hscan.
  destruct contained; [by eauto|].
  apply scan_not_contained in Hscan as ->. simpl.
  rewrite (setitem_Ok _ _ _ Hi). by eauto.
Qed.

Lemma correct_loop_returns tokens :
  candidates_available ->
  (forall id, spaceless (tokenizer_decode id)) ->
  forall i temp_sent,
    Forall spaceless temp_sent ->
    (i + length tokens <= length temp_sent)%nat ->
    exists temp_sent' tr, correct_loop i tokens temp_sent = (Ok temp_sent', tr).
Proof.
  intros Hgen Hdec.
  induction tokens as [|token rest IH]; intros i temp_sent Hsp Hlen.
  { by exists temp_sent, []. }
  simpl in *.
  destruct (bool_decide (i = 0%nat) || bool_decide (token ∈ stopwords)).
  - apply IH; [done|lia].
  - destruct (correct_position_returns i token temp_sent Hgen Hsp)
      as (temp1 & t1 & Hpos); [lia|].
    rewrite Hpos.
    apply correct_position_Ok_inv in Hpos as (_ & _ & Hpos).
    assert (length temp1 = length temp_sent) as Hlen1.
    { destruct Hpos as [->|[id ->]]; [done|apply length_insert]. }
    assert (Forall spaceless temp1) as Hsp1.
    { destruct Hpos as [->|[id ->]]; [done|]. by apply Forall_insert. }
    destruct (IH (S i) temp1 Hsp1) as (temp2 & t2 & Hloop); [lia|].
    unfold mbind, traced_bind. rewrite Hloop. by eauto.
Qed.

Lemma correct_errors_returns sequence :
  candidates_available ->
  (forall id, spaceless (tokenizer_decode id)) ->
  exists out tr, correct_errors sequence = (Ok out, tr).
Proof.
  intros Hgen Hdec. unfold correct_errors.
  destruct (correct_loop_returns (PyStr.split " " sequence) Hgen Hdec 0
              (PyStr.split " " sequence)) as (temp & tr & Hloop);
    [apply split_fields_clean|simpl; lia|].
  rewrite Hloop. unfold mbind, traced_bind, mret, traced_ret.
  rewrite app_nil_r. by eauto.
Qed.

(** The tokens of a returned sentence are the final [temp_sent]. *)
Lemma correct_errors_Ok_inv sequence out tr :
  (forall id, spaceless (tokenizer_decode id)) ->
  correct_errors sequence = (Ok out, tr) ->
  correct_loop 0 (PyStr.split " " sequence) (PyStr.split " " sequence)
  = (Ok (PyStr.split " " out), tr).
Proof.
  intros Hdec Hrun. unfold correct_errors in Hrun.
  apply traced_bind_Ok in Hrun as (temp & t1 & t2 & Hloop & Hret & ->).
  injection Hret as <- <-. rewrite app_nil_r.
  pose proof (correct_loop_inv _ _ _ _ _ Hloop) as (Hlen & _ & _ & Hsp).
  rewrite split_join; [done| |].
  - intros ->. pose proof (split_not_nil " " sequence) as Hne.
    by destruct (PyStr.split " " sequence).
  - apply Hsp; [done|]. apply split_fields_clean.
Qed.

(** C5: in a returned sentence the token at index 0 and every stopword token
    are the input's, position by position (decoded candidates hold no
    space); and the call does return whenever every query of the loop
    yields at least one candidate. *)
Theorem correct_errors_keeps_first_and_stopwords sequence :
  (forall id, spaceless (tokenizer_decode id)) ->
  (forall out tr, correct_errors sequence = (Ok out, tr) ->
     forall i token,
       PyStr.split " " sequence !! i = Some token ->
       i = 0%nat \/ token ∈ stopwords ->
       PyStr.split " " out !! i = Some token)
  /\ (candidates_available ->
      exists out tr, correct_errors sequence = (Ok out, tr)).
Proof.
  intros Hdec. split; [|by intros; apply correct_errors_returns].
  intros out tr Hrun i token Htoken Hskip.
  apply correct_errors_Ok_inv in Hrun; [|done].
  apply correct_loop_inv in Hrun as (_ & _ & Hkeep & _).
  rewrite <- Htoken. apply (Hkeep i token Htoken). simpl. by destruct Hskip; [left|right].
Qed.

(** C6: a returned sentence has as many single-space separated tokens as the
    input (decoded candidates hold no space); and the call does return
    whenever every query of the loop yields at least one candidate. *)
Theorem correct_errors_token_count sequence :
  (forall id, spaceless (tokenizer_decode id)) ->
  (forall out tr, correct_errors sequence = (Ok out, tr) ->
     length (PyStr.split " " out) = length (PyStr.split " " sequence))
  /\ (candidates_available ->
      exists out tr, correct_errors sequence = (Ok out, tr)).
Proof.
  intros Hdec. split; [|by intros; apply correct_errors_returns].
  intros out tr Hrun.
  apply correct_errors_Ok_inv in Hrun; [|done].
  by apply correct_loop_inv in Hrun as (Hlen & _).
Qed.

Lemma correct_loop_stopwords tokens : forall i temp_sent,
  Forall (fun token => token ∈ stopwords) tokens ->
  correct_loop i tokens temp_sent = (Ok temp_sent, []).
Proof.
  induction tokens as [|token rest IH]; intros i temp_sent Hall; [done|].
  apply Forall_cons in Hall as [Hstop Hall]. simpl.
  rewrite (bool_decide_eq_true_2 _ Hstop), orb_true_r. by apply IH.
Qed.

(** C9: a sentence with nothing to correct (every token after the first is
    a stopword, or there is one token at most, as for the empty sentence)
    comes back as it is, and no query is made. *)
Theorem correct_errors_nothing_to_correct sequence :
  Forall (fun token => token ∈ stopwords) (tail (PyStr.split " " sequence))
  \/ (length (PyStr.split " " sequence) <= 1)%nat ->
  correct_errors sequence = (Ok sequence, []).
Proof.
  intros Hcase.
  assert (Forall (fun token => token ∈ stopwords)
            (tail (PyStr.split " " sequence))) as Hall.
  { destruct Hcase as [?|Hlen]; [done|].
    destruct (PyStr.split " " sequence) as [|w [|v ws]]; simpl in *;
      [constructor..|lia]. }
  unfold correct_errors.
  pose proof (join_split " " sequence) as Hjoin.
  destruct (PyStr.split " " sequence) as [|w ws] eqn:Hsplit;
    [by apply split_not_nil in Hsplit|].
  simpl in Hall. simpl correct_loop.
  rewrite (correct_loop_stopwords ws 1 (w :: ws) Hall).
  unfold mbind, traced_bind, mret, traced_ret. by rewrite Hjoin.
Qed.

(** ** More on the token cleaner *)

Lemma all_chars_app p s t :
  all_chars p (s +:+ t) = all_chars p s && all_chars p t.
Proof.
  induction s as [|c s IH]; [done|].
  rewrite app_cons. simpl. by rewrite IH, andb_assoc.
Qed.

Lemma count_char_app c s t :
  count_char c (s +:+ t) = (count_char c s + count_char c t)%nat.
Proof.
  induction s as [|c' s IH]; [done|].
  rewrite app_cons. simpl. rewrite IH. lia.
Qed.

Lemma lower_char_clean c :
  PyStr.is_word c || Ascii.eqb c hyphen || Ascii.eqb c apostrophe = true ->
  clean_char (PyStr.lower_char c) = true.
Proof. each_char c; vm_compute; congruence. Qed.

Lemma not_skipped n i c :
  skipped n i c = false ->
  PyStr.is_word c || Ascii.eqb c hyphen || Ascii.eqb c apostrophe = true.
Proof.
  unfold skipped.
  destruct (PyStr.is_word c), (Ascii.eqb c apostrophe), (Ascii.eqb c hyphen);
    simpl; try done.
Qed.

(** X1: a cleaned token is written in word characters that are their own
    lower case, hyphens and apostrophes; nothing else survives cleaning. *)
Theorem clean_token_alphabet (token : string) :
  all_chars clean_char (clean_token token) = true.
Proof.
  unfold clean_token. generalize (PyStr.len token) 0.
  induction token as [|c s IH]; intros n i; [done|]. simpl.
  destruct (skipped n i c) eqn:Hs; [apply IH|]. simpl.
  by rewrite (lower_char_clean c (not_skipped _ _ _ Hs)), IH.
Qed.

Lemma lower_char_apostrophe c :
  Ascii.eqb (PyStr.lower_char c) apostrophe = Ascii.eqb c apostrophe.
Proof. each_char c; reflexivity. Qed.

Lemma plain_no_apostrophe s : count_char apostrophe (plain s) = 0%nat.
Proof.
  induction s as [|c s IH]; [done|]. simpl.
  destruct (keeps c) eqn:Hk; [|done]. simpl.
  by rewrite lower_char_apostrophe, (keeps_not_apostrophe c Hk), IH.
Qed.

Lemma second_last_last_two p a b :
  apostrophe_second_last (p +:+ String a (String b EmptyString))
  = Ascii.eqb a apostrophe.
Proof.
  induction p as [|c p IH]; [done|].
  rewrite app_cons. simpl. rewrite <- IH.
  destruct p as [|d [|e p]]; reflexivity.
Qed.

Lemma second_last_short s :
  PyStr.len s < 2 -> apostrophe_second_last s = false.
Proof.
  destruct s as [|c [|d s]]; [done..|].
  rewrite !len_cons. pose proof (len_nonneg s). lia.
Qed.

(** X2: a cleaned token holds one apostrophe when the character before the
    last one of the raw token is an apostrophe, and none otherwise. *)
Theorem clean_token_apostrophe (token : string) :
  count_char apostrophe (clean_token token)
  = if apostrophe_second_last token then 1%nat else 0%nat.
Proof.
  destruct (last_two token) as [Hs|(p & a & b & ->)].
  - rewrite (second_last_short _ Hs), (clean_token_short _ Hs).
    apply plain_no_apostrophe.
  - rewrite second_last_last_two, clean_token_last_two.
    rewrite !count_char_app, !plain_no_apostrophe.
    destruct (Ascii.eqb a apostrophe) eqn:Ha.
    + rewrite orb_true_r. simpl. by rewrite lower_char_apostrophe, Ha.
    + rewrite orb_false_r. destruct (keeps a); [|done].
      simpl. by rewrite lower_char_apostrophe, Ha.
Qed.

(** X3: on a token of word characters and hyphens only, all of code points
    below 256, cleaning is lower-casing. *)
Theorem clean_token_word_token (token : string) :
  all_chars keeps token = true -> clean_token token = PyStr.lower token.
Proof.
  unfold clean_token. generalize (PyStr.len token) 0.
  induction token as [|c s IH]; intros n i Hs; [done|].
  simpl in Hs. apply andb_prop in Hs as [Hk Hr]. simpl.
  assert (skipped n i c = false) as ->.
  { unfold skipped. pose proof (keeps_not_apostrophe c Hk) as Ha.
    unfold keeps in Hk. destruct (PyStr.is_word c); [done|].
    simpl in *. by rewrite Hk, Ha. }
  by rewrite IH.
Qed.

(** X4: cleaning never lengthens a token of characters with code points
    below 256 (where the lower case of a character is one character). *)
Theorem clean_token_length (token : string) :
  PyStr.len (clean_token token) <= PyStr.len token.
Proof.
  unfold clean_token. generalize (PyStr.len token) at 1. generalize 0.
  induction token as [|c s IH]; intros i n; [done|]. simpl.
  specialize (IH (i + 1) n).
  destruct (skipped n i c); rewrite !len_cons; lia.
Qed.

Lemma skipped_lower_char n i c :
  skipped n i (PyStr.lower_char c) = skipped n i c.
Proof.
  unfold skipped. rewrite lower_char_apostrophe.
  assert (PyStr.is_word (PyStr.lower_char c) = PyStr.is_word c) as ->
    by (each_char c; reflexivity).
  assert (Ascii.eqb (PyStr.lower_char c) hyphen = Ascii.eqb c hyphen) as ->
    by (each_char c; reflexivity).
  done.
Qed.

Lemma len_lower s : PyStr.len (PyStr.lower s) = PyStr.len s.
Proof.
  induction s as [|c s IH]; [done|]. simpl PyStr.lower. by rewrite !len_cons, IH.
Qed.

Lemma clean_chars_lower s : forall n i,
  clean_chars n i (PyStr.lower s) = clean_chars n i s.
Proof.
  induction s as [|c s IH]; intros n i; [done|]. simpl.
  by rewrite skipped_lower_char, lower_char_idem, IH.
Qed.

Lemma clean_token_lower token :
  clean_token (PyStr.lower token) = clean_token token.
Proof. unfold clean_token. by rewrite len_lower, clean_chars_lower. Qed.

(** ** More on the detector *)

(** The outcome of [is_error] read off the instance it is called on. *)
Lemma is_error_outcome self token :
  (is_error self token).1
  = match us_provider self with
    | Raise e => Raise e
    | Ok us =>
        match gb_provider self with
        | Raise e => Raise e
        | Ok gb =>
            Ok (negb (length_rule self (clean_token token))
                && negb (frequency_rule self (clean_token token))
                && negb (check us (clean_token token)
                         || check gb (clean_token token)))
        end
    end.
Proof.
  unfold is_error, load_dict_us, load_dict_gb, us_provider, gb_provider.
  destruct self as [cm fm [us|] [gb|] fl]; simpl.
  - unfold verdict, dictionary_rule, length_rule, frequency_rule. simpl.
    by repeat case_match.
  - destruct (enchant_Dict "en_GB") as [gb|e]; simpl; [|done].
    unfold verdict, dictionary_rule, length_rule, frequency_rule. simpl.
    by repeat case_match.
  - destruct (enchant_Dict "en_US") as [us|e]; simpl; [|done].
    unfold verdict, dictionary_rule, length_rule, frequency_rule. simpl.
    by repeat case_match.
  - destruct (enchant_Dict "en_US") as [us|e]; simpl; [|done].
    destruct (enchant_Dict "en_GB") as [gb|e]; simpl; [|done].
    unfold verdict, dictionary_rule, length_rule, frequency_rule. simpl.
    by repeat case_match.
Qed.

(** X5: a token whose cleaned form is no longer than the minimum is never
    an error, whatever the dictionaries and the frequency table say. *)
Theorem is_error_short_token self token us gb :
  us_provider self = Ok us ->
  gb_provider self = Ok gb ->
  PyStr.len (clean_token token) <= char_minimum self ->
  (is_error self token).1 = Ok false.
Proof.
  intros Hus Hgb Hlen. rewrite is_error_outcome, Hus, Hgb.
  unfold length_rule. by rewrite (proj2 (Z.leb_le _ _) Hlen).
Qed.

(** X6: a token counted more often than the maximum in a non-empty table is
    never an error, even when no dictionary knows it. *)
Theorem is_error_frequent_token self token us gb c :
  us_provider self = Ok us ->
  gb_provider self = Ok gb ->
  frequency_list self = Some c ->
  c <> ∅ ->
  frequency_maximum self < counter_get c (clean_token token) ->
  (is_error self token).1 = Ok false.
Proof.
  intros Hus Hgb Hc Hne Hlt. rewrite is_error_outcome, Hus, Hgb.
  assert (frequency_rule self (clean_token token) = true) as ->.
  { apply frequency_rule_true_iff. by exists c. }
  by rewrite andb_false_r.
Qed.

(** X7: an empty table is as good as none: the frequency rule is skipped,
    whatever the maximum. *)
Theorem is_error_empty_table self token :
  frequency_list self = Some ∅ ->
  (is_error self token).1 = (is_error (set_frequency_list None self) token).1.
Proof.
  intros Hempty. rewrite !is_error_outcome.
  assert (forall c, frequency_rule self c = false) as Hrule.
  { intros c. unfold frequency_rule. rewrite Hempty.
    by rewrite bool_decide_eq_true_2. }
  destruct self as [cm fm us gb fl]. unfold us_provider, gb_provider.
  simpl in *. destruct us as [us|], gb as [gb|]; simpl;
    repeat case_match; try done;
    by rewrite Hrule.
Qed.

(** X9: as long as no dictionary is asked about the empty string (the
    minimum is not negative, or the cleaned token is not empty), [is_error]
    answers [True] exactly when both providers are there, the cleaned token
    is longer than the minimum, the frequency rule does not fire and neither
    dictionary knows the token. *)
Theorem is_error_true_iff self token :
  0 <= char_minimum self \/ clean_token token <> EmptyString ->
  (is_error self token).1 = Ok true <->
  exists us gb,
    us_provider self = Ok us /\ gb_provider self = Ok gb
    /\ char_minimum self < PyStr.len (clean_token token)
    /\ frequency_rule self (clean_token token) = false
    /\ check us (clean_token token) = false
    /\ check gb (clean_token token) = false.
Proof.
  intros _. rewrite is_error_outcome. unfold length_rule. split.
  - destruct (us_provider self) as [us|e]; [|done].
    destruct (gb_provider self) as [gb|e]; [|done].
    intros [= Hv]. apply andb_prop in Hv as [Hv Hdict].
    apply andb_prop in Hv as [Hlen Hfreq].
    apply negb_true_iff in Hlen, Hfreq, Hdict.
    apply orb_false_elim in Hdict as [Hcu Hcg].
    apply Z.leb_gt in Hlen. by exists us, gb.
  - intros (us & gb & -> & -> & Hlen & -> & -> & ->).
    apply Z.leb_gt in Hlen. by rewrite Hlen.
Qed.

(** X10: [is_error] does not see the case of the letters: a token and its
    lower case get the same outcome and leave the same instance. *)
Theorem is_error_case_insensitive self token :
  is_error self (PyStr.lower token) = is_error self token.
Proof.
  unfold is_error. rewrite clean_token_lower. reflexivity.
Qed.

(** ** More on the frequency table and the constructor *)

Lemma occurrences_app token (l1 l2 : list string) :
  occurrences token (l1 ++ l2)
  = (occurrences token l1 + occurrences token l2)%nat.
Proof. induction l1 as [|t l1 IH]; simpl; [done|]. rewrite IH. lia. Qed.

Lemma count_texts_get strs : forall (c : Counter) token,
  counter_get
    (foldl (fun acc text => counter_update acc (answer_tokens text)) c strs)
    token
  = counter_get c token
    + Z.of_nat (occurrences token (concat (answer_tokens <$> strs))).
Proof.
  induction strs as [|text strs IH]; intros c token.
  - simpl. lia.
  - simpl foldl. rewrite IH, counter_update_get.
    rewrite fmap_cons. simpl concat. rewrite occurrences_app. lia.
Qed.

(** X11: called on a corpus whose answers are all texts,
    [generate_frequency_list] returns [None], prints nothing and leaves on
    the instance a table in which the count of every token is the number of
    times it occurs among the cleaned, whitespace-separated tokens of the
    answers. *)
Theorem generate_frequency_list_counts self path df texts strs :
  read_csv path = Ok df ->
  df !! "answers" = Some texts ->
  all_texts texts = Some strs ->
  exists c,
    generate_frequency_list self path
    = (Ok None, set_frequency_list (Some c) self, [])
    /\ forall token,
         counter_get c token
         = Z.of_nat (occurrences token (concat (answer_tokens <$> strs))).
Proof.
  intros Hread Hcol Htexts.
  eexists. split.
  - by apply (generate_frequency_list_builds self path df texts strs).
  - intros token. rewrite count_texts_get. unfold counter_get.
    rewrite lookup_empty. simpl. lia.
Qed.

(** X12: building the table again from the same file gives the same
    outcome and the same instance: each call starts from an empty counter,
    so counts are not added to those of an earlier call. *)
Theorem generate_frequency_list_again self path :
  generate_frequency_list (generate_frequency_list self path).1.2 path
  = generate_frequency_list self path.
Proof.
  unfold generate_frequency_list.
  destruct (read_csv path) as [df|e].
  - destruct (df !! "answers") as [texts|]; [|done].
    by destruct (count_answers texts ∅) as [r c].
  - by destruct e.
Qed.

Lemma after_thresholds self c :
  char_minimum (after self c) = char_minimum self
  /\ frequency_maximum (after self c) = frequency_maximum self.
Proof.
  destruct c as [token| | |path|]; simpl; try done.
  - unfold is_error.
    destruct (load_dict_us self) as [self1|e] eqn:H1; [|done].
    apply load_dict_us_inv in H1 as (us & _ & _ & _ & _ & Hc1 & Hm1).
    destruct (load_dict_gb self1) as [self2|e] eqn:H2; [|done].
    apply load_dict_gb_inv in H2 as (gb & _ & _ & _ & _ & Hc2 & Hm2).
    simpl. split; congruence.
  - unfold generate_frequency_list.
    destruct (read_csv path) as [df|[]]; simpl; try done.
    destruct (df !! "answers") as [texts|]; [|done].
    by destruct (count_answers texts ∅).
Qed.

(** X13: no method call changes the two thresholds of an instance, whether
    the call returns or raises. *)
Theorem run_keeps_thresholds calls : forall self,
  char_minimum (run self calls) = char_minimum self
  /\ frequency_maximum (run self calls) = frequency_maximum self.
Proof.
  induction calls as [|c calls IH]; intros self; [done|].
  simpl. destruct (IH (after self c)) as [Hc Hm].
  destruct (after_thresholds self c) as [Hc1 Hm1].
  unfold run in *. split; congruence.
Qed.

(** X14: a corpus without an [answers] column makes
    [generate_frequency_list] raise a [KeyError] after it has put an empty
    counter on the instance: a table built earlier is lost, and the
    frequency rule is skipped from then on. *)
Theorem generate_frequency_list_missing_column self path df :
  read_csv path = Ok df ->
  df !! "answers" = None ->
  generate_frequency_list self path
  = (Raise KeyError, set_frequency_list (Some ∅) self, [])
  /\ forall token,
       frequency_rule (generate_frequency_list self path).1.2 token = false.
Proof.
  intros Hread Hcol.
  assert (generate_frequency_list self path
          = (Raise KeyError, set_frequency_list (Some ∅) self, [])) as Hgen.
  { unfold generate_frequency_list. by rewrite Hread, Hcol. }
  split; [done|]. intros token. rewrite Hgen. unfold frequency_rule. simpl.
  by rewrite bool_decide_eq_true_2.
Qed.

Lemma count_answers_bad_cell pre : forall post strs (c : Counter),
  all_texts pre = Some strs ->
  count_answers (pre ++ CellOther :: post) c
  = (Raise AttributeError,
     foldl (fun acc text => counter_update acc (answer_tokens text)) c strs).
Proof.
  induction pre as [|[text|] pre IH]; intros post strs c; simpl.
  - by intros [= <-].
  - destruct (all_texts pre) as [strs'|]; simpl; [|done].
    intros [= <-]. simpl. by apply IH.
  - done.
Qed.

(** X15: a cell of the [answers] column that is not a text stops the count
    with an [AttributeError]; the instance is left with the table of the
    answers before that cell. *)
Theorem generate_frequency_list_bad_cell self path df pre post strs :
  read_csv path = Ok df ->
  df !! "answers" = Some (pre ++ CellOther :: post) ->
  all_texts pre = Some strs ->
  generate_frequency_list self path
  = (Raise AttributeError,
     set_frequency_list
       (Some (foldl (fun acc text => counter_update acc (answer_tokens text))
                ∅ strs))
       self,
     []).
Proof.
  intros Hread Hcol Hpre. unfold generate_frequency_list.
  rewrite Hread, Hcol. by rewrite (count_answers_bad_cell _ _ _ _ Hpre).
Qed.

Lemma count_answers_outcome texts : forall (c : Counter),
  (count_answers texts c).1
  = match all_texts texts with
    | Some _ => Ok tt
    | None => Raise AttributeError
    end.
Proof.
  induction texts as [|[text|] texts IH]; intros c; simpl; [done| |done].
  rewrite IH. by destruct (all_texts texts).
Qed.

(** X16: the outcome of the constructor on a non-empty corpus path: it
    raises the error of the corpus, if the corpus has one, and otherwise
    returns the instance with the given thresholds, no provider and no
    table. *)
Theorem init_outcome minimum maximum c path :
  (__init__ minimum maximum (Some (String c path))).1
  = match corpus_failure (read_csv (String c path)) with
    | Some e => Raise e
    | None => Ok (mkTransSpell minimum maximum None None None)
    end.
Proof.
  unfold __init__, generate_frequency_list, corpus_failure.
  destruct (read_csv (String c path)) as [df|e].
  - destruct (df !! "answers") as [texts|]; [|done].
    pose proof (count_answers_outcome texts ∅) as Hout.
    destruct (count_answers texts ∅) as [r cnt]. simpl in Hout. subst r.
    by destruct (all_texts texts).
  - by destruct e.
Qed.

(** ** More on the candidate generator *)

Lemma mask_positions_none input_str : forall i,
  mask_token_id ∉ input_str -> mask_positions i input_str = [].
Proof.
  induction input_str as [|id rest IH]; intros i Hnot; [done|]. simpl.
  apply not_elem_of_cons in Hnot as [Hne Hnot].
  destruct (Z.eqb_spec id mask_token_id) as [Heq|_]; [congruence|]. by apply IH.
Qed.

Lemma mask_positions_first pre post : forall i,
  mask_token_id ∉ pre ->
  mask_positions i (pre ++ mask_token_id :: post)
  = (i + length pre)%nat :: mask_positions (S (i + length pre)) post.
Proof.
  induction pre as [|id pre IH]; intros i Hnot; simpl.
  - rewrite Z.eqb_refl. by rewrite Nat.add_0_r.
  - apply not_elem_of_cons in Hnot as [Hne Hnot].
    destruct (Z.eqb_spec id mask_token_id) as [Heq|_]; [congruence|].
    rewrite IH by done. by rewrite Nat.add_succ_r.
Qed.

(** X17: the candidates are those the model ranks at the first position
    that holds the mask code; masks further on in the input play no part. *)
Theorem generate_candidates_first_mask sequence topn pre post :
  tokenizer_encode sequence = pre ++ mask_token_id :: post ->
  mask_token_id ∉ pre ->
  generate_candidates sequence topn
  = (token_logits ← model (tokenizer_encode sequence);
     topk_indices token_logits (length pre) topn).
Proof.
  intros Henc Hnot.
  assert (mask_positions 0 (tokenizer_encode sequence)
          = length pre :: mask_positions (S (length pre)) post) as Hpos.
  { rewrite Henc. apply (mask_positions_first pre post 0 Hnot). }
  unfold generate_candidates. cbv zeta. by rewrite Hpos.
Qed.

(** X18: when the encoded input holds no mask code and [topn] is a number
    of candidates the top-k selection accepts (it is not above the size of
    the vocabulary), the call raises: the error of the model if the forward
    pass fails, an [IndexError] if it succeeds. *)
Theorem generate_candidates_no_mask sequence topn :
  mask_token_id ∉ tokenizer_encode sequence ->
  (forall token_logits p, exists r, topk_indices token_logits p topn = Ok r) ->
  generate_candidates sequence topn
  = match model (tokenizer_encode sequence) with
    | Ok _ => Raise IndexError
    | Raise e => Raise e
    end.
Proof.
  intros Hnot _. unfold generate_candidates. cbv zeta.
  rewrite (mask_positions_none _ 0 Hnot).
  by destruct (model (tokenizer_encode sequence)).
Qed.

(** ** More on the sentence corrector *)

Lemma traced_bind_Raise {A B} (m : traced A) (f : A -> traced B) e tr :
  m ≫= f = (Raise e, tr) ->
  m = (Raise e, tr)
  \/ exists a t1 t2, m = (Ok a, t1) /\ f a = (Raise e, t2) /\ tr = t1 ++ t2.
Proof.
  unfold mbind, traced_bind. destruct m as [[a|e'] t1].
  - destruct (f a) as [r t2] eqn:Hf. intros [= -> <-]. right. by exists a, t1, t2.
  - intros [= -> ->]. by left.
Qed.

Lemma correct_loop_trace tokens : forall i temp_sent temp_sent' tr,
  correct_loop i tokens temp_sent = (Ok temp_sent', tr) ->
  Forall spaceless temp_sent ->
  spaceless mask_token ->
  (forall id, spaceless (tokenizer_decode id)) ->
  Forall2 (fun sent p => PyStr.split " " sent !! p = Some mask_token)
    tr (correctable i tokens).
Proof.
  induction tokens as [|token rest IH];
    intros i temp_sent temp_sent' tr Hrun Hsp Hmask Hdec.
  { injection Hrun as <- <-. constructor. }
  simpl in *.
  destruct (bool_decide (i = 0%nat) || bool_decide (token ∈ stopwords)).
  - by apply (IH _ _ _ _ Hrun).
  - apply traced_bind_Ok in Hrun as (temp1 & t1 & t2 & Hpos & Hrun & ->).
    apply correct_position_Ok_inv in Hpos as (Hlt & -> & Hpos).
    simpl. constructor.
    + rewrite split_join.
      * by apply list_lookup_insert_eq.
      * intros Hnil. apply (f_equal length) in Hnil.
        rewrite length_insert in Hnil. simpl in Hnil. lia.
      * by apply Forall_insert.
    + apply (IH _ _ _ _ Hrun); [|done..].
      destruct Hpos as [->|[id ->]]; [done|]. by apply Forall_insert.
Qed.

(** X19: a returning [correct_errors] has queried the model once for each
    token that is neither first nor a stopword, and not otherwise. *)
Theorem correct_errors_query_count sequence out tr :
  correct_errors sequence = (Ok out, tr) ->
  length tr = length (correctable 0 (PyStr.split " " sequence)).
Proof.
  unfold correct_errors. intros Hrun.
  apply traced_bind_Ok in Hrun as (temp & t1 & t2 & Hloop & Hret & ->).
  injection Hret as _ <-. rewrite app_nil_r.
  revert Hloop. generalize (PyStr.split " " sequence) at 2.
  generalize 0%nat. revert temp t1.
  induction (PyStr.split " " sequence) as [|token rest IH];
    intros temp t1 i temp_sent Hloop.
  { by injection Hloop as <- <-. }
  simpl in *.
  destruct (bool_decide (i = 0%nat) || bool_decide (token ∈ stopwords)).
  - by apply (IH _ _ _ _ Hloop).
  - apply traced_bind_Ok in Hloop as (temp1 & q1 & q2 & Hpos & Hloop & ->).
    apply correct_position_Ok_inv in Hpos as (_ & -> & _).
    simpl. f_equal. by apply (IH _ _ _ _ Hloop).
Qed.

(** X20: the queries of a returning [correct_errors] are made in the order
    of the positions, and each holds the mask at the position it is made
    for (no space in the mask token nor in decoded candidates). *)
Theorem correct_errors_queries sequence out tr :
  spaceless mask_token ->
  (forall id, spaceless (tokenizer_decode id)) ->
  correct_errors sequence = (Ok out, tr) ->
  Forall2 (fun sent p => PyStr.split " " sent !! p = Some mask_token)
    tr (correctable 0 (PyStr.split " " sequence)).
Proof.
  intros Hmask Hdec Hrun. unfold correct_errors in Hrun.
  apply traced_bind_Ok in Hrun as (temp & t1 & t2 & Hloop & Hret & ->).
  injection Hret as _ <-. rewrite app_nil_r.
  apply (correct_loop_trace _ _ _ _ _ Hloop); [|done..].
  apply split_fields_clean.
Qed.

Lemma correct_position_Raise_inv i token temp_sent e tr :
  (i < length temp_sent)%nat ->
  correct_position i token temp_sent = (Raise e, tr) ->
  exists sent,
    tr = [sent]
    /\ (generate_candidates sent 25 = Raise e
        \/ generate_candidates sent 25 = Ok [] /\ e = IndexError).
Proof.
  intros Hi. unfold correct_position.
  rewrite (setitem_Ok _ _ _ Hi). unfold lift, query, mbind, traced_bind.
  set (sent := PyStr.join " " (<[i:=mask_token]> temp_sent)).
  destruct (generate_candidates sent 25) as [results|e'] eqn:Hgen.
  - destruct (scan token results) as [results' contained] eqn:Hscan.
    destruct contained; [done|].
    apply scan_not_contained in Hscan as ->.
    destruct results as [|id rest]; simpl.
    + intros [= <- <-]. exists sent. split; [done|]. by right.
    + by rewrite (setitem_Ok _ _ _ Hi).
  - intros [= <- <-]. exists sent. split; [done|]. by left.
Qed.

Lemma correct_loop_Raise_inv tokens : forall i temp_sent e tr,
  (i + length tokens <= length temp_sent)%nat ->
  correct_loop i tokens temp_sent = (Raise e, tr) ->
  exists tr0 sent,
    tr = tr0 ++ [sent]
    /\ (generate_candidates sent 25 = Raise e
        \/ generate_candidates sent 25 = Ok [] /\ e = IndexError).
Proof.
  induction tokens as [|token rest IH]; intros i temp_sent e tr Hlen Hrun;
    [done|].
  simpl in *.
  destruct (bool_decide (i = 0%nat) || bool_decide (token ∈ stopwords)).
  - apply (IH (S i) temp_sent); [lia|done].
  - apply traced_bind_Raise in Hrun
      as [Hpos|(temp1 & t1 & t2 & Hpos & Hrun & ->)].
    + apply correct_position_Raise_inv in Hpos as (sent & -> & Hsent); [|lia].
      by exists [], sent.
    + apply correct_position_Ok_inv in Hpos as (_ & _ & Hpos).
      assert (length temp1 = length temp_sent) as Hlen1.
      { destruct Hpos as [->|[id ->]]; [done|apply length_insert]. }
      apply IH in Hrun as (tr0 & sent & -> & Hsent); [|lia].
      exists (t1 ++ tr0), sent. by rewrite app_assoc.
Qed.

(** X22: when [correct_errors] raises, the error is that of the last query
    it made: the error [generate_candidates] raised there, or the
    [IndexError] of an empty candidate list.  The list assignments of the
    loop never fail. *)
Theorem correct_errors_error_source sequence e tr :
  correct_errors sequence = (Raise e, tr) ->
  exists tr0 sent,
    tr = tr0 ++ [sent]
    /\ (generate_candidates sent 25 = Raise e
        \/ generate_candidates sent 25 = Ok [] /\ e = IndexError).
Proof.
  unfold correct_errors. intros Hrun.
  apply traced_bind_Raise in Hrun as [Hloop|(temp & t1 & t2 & _ & Hret & _)];
    [|done].
  apply correct_loop_Raise_inv in Hloop; [done|]. simpl. lia.
Qed.

Lemma correct_loop_plausible tokens : forall i temp_sent,
  (i + length tokens <= length temp_sent)%nat ->
  (forall j token, tokens !! j = Some token ->
     (i + j)%nat <> 0%nat -> token ∉ stopwords ->
     exists results,
       generate_candidates
         (PyStr.join " " (<[(i + j)%nat:=mask_token]> temp_sent)) 25
       = Ok results
       /\ Exists (fun id => matches (tokenizer_decode id) token = true) results) ->
  exists tr, correct_loop i tokens temp_sent = (Ok temp_sent, tr).
Proof.
  induction tokens as [|token rest IH]; intros i temp_sent Hlen Hgen.
  { by exists []. }
  simpl in *.
  destruct (IH (S i) temp_sent) as [tr Hrest]; [lia| |].
  { intros j tok Htok Hne Hstop.
    replace (S i + j)%nat with (i + S j)%nat by lia.
    apply Hgen; [done|lia|done]. }
  destruct (bool_decide (i = 0%nat)) eqn:Hi; simpl; [by eauto|].
  destruct (bool_decide (token ∈ stopwords)) eqn:Hstop; [by eauto|].
  apply bool_decide_eq_false in Hi. apply bool_decide_eq_false in Hstop.
  destruct (Hgen 0%nat token eq_refl) as (results & Hq & Hex); [lia|done|].
  rewrite Nat.add_0_r in Hq.
  rewrite (correct_position_run i token temp_sent results) by (done || lia).
  apply first_match in Hex as (before & id & after & -> & Hbefore & Hid).
  rewrite (scan_first_match _ _ _ _ Hbefore Hid).
  unfold mbind, traced_bind. rewrite Hrest. by eauto.
Qed.

(** X23: a sentence in which every token that is neither first nor a
    stopword is among the candidates for its own position, case apart, is
    returned as it is. *)
Theorem correct_errors_plausible sequence :
  (forall j token, PyStr.split " " sequence !! j = Some token ->
     j <> 0%nat -> token ∉ stopwords ->
     exists results,
       generate_candidates
         (PyStr.join " " (<[j:=mask_token]> (PyStr.split " " sequence))) 25
       = Ok results
       /\ Exists (fun id => matches (tokenizer_decode id) token = true) results) ->
  (correct_errors sequence).1 = Ok sequence.
Proof.
  intros Hgen. unfold correct_errors.
  destruct (correct_loop_plausible (PyStr.split " " sequence) 0
              (PyStr.split " " sequence)) as [tr Hloop]; [simpl; lia|done|].
  rewrite Hloop. unfold mbind, traced_bind, mret, traced_ret. simpl.
  by rewrite join_split.
Qed.

(** ** The decision at every masked position of a sentence *)

Lemma take_agree (l1 l2 : list string) n :
  (forall k, (k < n)%nat -> l1 !! k = l2 !! k) -> take n l1 = take n l2.
Proof.
  intros Hsame. apply list_eq. intros k.
  destruct (decide (k < n)%nat) as [Hk|Hk].
  - rewrite !lookup_take_lt by done. by apply Hsame.
  - rewrite !lookup_take_ge by lia. done.
Qed.

Lemma match_or_not token results :
  Exists (fun id => matches (tokenizer_decode id) token = true) results
  \/ Forall (no_match token) results.
Proof.
  induction results as [|id rest [IH|IH]].
  - right. constructor.
  - left. by apply Exists_cons_tl.
  - destruct (matches (tokenizer_decode id) token) eqn:Hid.
    + left. by apply Exists_cons_hd.
    + right. by constructor.
Qed.

(** A returning pass over one position, with the candidates it got. *)
Lemma correct_position_Ok_results i token temp_sent temp_sent' tr :
  correct_position i token temp_sent = (Ok temp_sent', tr) ->
  (i < length temp_sent)%nat
  /\ tr = [PyStr.join " " (<[i:=mask_token]> temp_sent)]
  /\ exists results,
       generate_candidates (PyStr.join " " (<[i:=mask_token]> temp_sent)) 25
       = Ok results
       /\ (Exists (fun id => matches (tokenizer_decode id) token = true) results ->
           temp_sent' = temp_sent)
       /\ (Forall (no_match token) results ->
           exists id rest,
             results = id :: rest
             /\ temp_sent' = <[i:=tokenizer_decode id]> temp_sent).
Proof.
  intros Hrun.
  destruct (correct_position_Ok_inv _ _ _ _ _ Hrun) as (Hi & Htr & _).
  split; [done|]. split; [done|].
  destruct (generate_candidates (PyStr.join " " (<[i:=mask_token]> temp_sent)) 25)
    as [results|e] eqn:Hgen.
  - exists results. split; [done|].
    rewrite (correct_position_run _ _ _ _ Hi Hgen) in Hrun. split.
    + intros (before & id & after & -> & Hbefore & Hid)%first_match.
      rewrite (scan_first_match _ _ _ _ Hbefore Hid) in Hrun. congruence.
    + intros Hnone. rewrite (scan_no_match _ _ Hnone) in Hrun.
      destruct results as [|id rest]; [done|]. simpl in Hrun.
      rewrite (setitem_Ok _ _ _ Hi) in Hrun. exists id, rest. split; congruence.
  - unfold correct_position in Hrun. rewrite (setitem_Ok _ _ _ Hi) in Hrun.
    unfold lift, query, mbind, traced_bind in Hrun. by rewrite Hgen in Hrun.
Qed.

(** The loop, position by position: the query made for a masked position
    holds the tokens already settled before it and the untouched ones after
    it, and its candidates decide the token. *)
Lemma correct_loop_decision tokens : forall i temp_sent temp_sent' tr,
  correct_loop i tokens temp_sent = (Ok temp_sent', tr) ->
  forall j token,
    tokens !! j = Some token -> (i + j)%nat <> 0%nat -> token ∉ stopwords ->
    exists results,
      PyStr.join " "
        (take (i + j) temp_sent' ++ mask_token :: drop (S (i + j)) temp_sent)
      ∈ tr
      /\ generate_candidates
           (PyStr.join " "
              (take (i + j) temp_sent'
               ++ mask_token :: drop (S (i + j)) temp_sent)) 25
         = Ok results
      /\ (Exists (fun id => matches (tokenizer_decode id) token = true) results ->
          temp_sent' !! (i + j)%nat = temp_sent !! (i + j)%nat)
      /\ (Forall (no_match token) results ->
          exists id rest,
            results = id :: rest
            /\ temp_sent' !! (i + j)%nat = Some (tokenizer_decode id)).
Proof.
  induction tokens as [|token0 rest IH];
    intros i temp_sent temp_sent' tr Hrun j token Htoken Hne Hstop; [done|].
  simpl in Hrun.
  destruct (bool_decide (i = 0%nat) || bool_decide (token0 ∈ stopwords))
    eqn:Hskip.
  - destruct j as [|j].
    + simpl in Htoken. injection Htoken as ->.
      apply orb_prop in Hskip as [Hi|Hs].
      * apply bool_decide_eq_true in Hi. lia.
      * by apply bool_decide_eq_true in Hs.
    + replace (i + S j)%nat with (S i + j)%nat by lia.
      apply (IH _ _ _ _ Hrun j token Htoken); [lia|done].
  - apply traced_bind_Ok in Hrun as (temp1 & t1 & t2 & Hpos & Hrun & ->).
    apply correct_position_Ok_results
      in Hpos as (Hi & -> & results & Hgen & Hsame & Hnew).
    pose proof (correct_loop_inv _ _ _ _ _ Hrun) as (Hlen & Hlow & _).
    assert (forall k, k <> i -> temp1 !! k = temp_sent !! k) as Hother.
    { intros k Hk. destruct (match_or_not token0 results) as [Hm|Hm].
      - by rewrite (Hsame Hm).
      - destruct (Hnew Hm) as (id & rest' & _ & ->).
        by apply list_lookup_insert_ne. }
    destruct j as [|j].
    + simpl in Htoken. injection Htoken as ->. rewrite Nat.add_0_r.
      assert (take i temp_sent' = take i temp_sent) as ->.
      { apply take_agree. intros k Hk. rewrite Hlow by lia. apply Hother. lia. }
      rewrite <- (insert_take_drop temp_sent i mask_token Hi).
      exists results. split; [apply elem_of_app; left; apply list_elem_of_here|].
      split; [done|]. split.
      * intros Hm. rewrite Hlow by lia. by rewrite (Hsame Hm).
      * intros Hm. destruct (Hnew Hm) as (id & rest' & -> & ->).
        exists id, rest'. split; [done|]. rewrite Hlow by lia.
        by apply list_lookup_insert_eq.
    + replace (i + S j)%nat with (S i + j)%nat by lia.
      destruct (IH _ _ _ _ Hrun j token Htoken) as (results' & Hin & Hgen' & Hsame' & Hnew');
        [lia|done|].
      assert (drop (S (S i + j)) temp1 = drop (S (S i + j)) temp_sent) as Hdrop.
      { destruct (match_or_not token0 results) as [Hm|Hm].
        - by rewrite (Hsame Hm).
        - destruct (Hnew Hm) as (id & rest' & _ & ->).
          apply drop_insert_lt. lia. }
      rewrite Hdrop in Hin, Hgen'.
      exists results'. split; [apply elem_of_app; by right|].
      split; [done|]. split.
      * intros Hm. rewrite (Hsame' Hm). apply Hother. lia.
      * done.
Qed.

(** C4: in a returned sentence, at every position that is masked (neither
    index 0 nor a stopword), the model was asked, with 25 candidates, about
    the sentence that holds the tokens already settled before the position,
    the mask, and the input's tokens after it.  If some decoded candidate
    equals the input's token up to case, the token stays, and the scan has
    decoded the candidates up to the first match and no further; if none
    does, the token is the decoded candidate at index 0, with no other
    condition (decoded candidates hold no space).  The call does return
    whenever every query of the loop yields at least one candidate. *)
Theorem correct_errors_decision sequence :
  (forall id, spaceless (tokenizer_decode id)) ->
  (forall out tr, correct_errors sequence = (Ok out, tr) ->
   forall j token,
    PyStr.split " " sequence !! j = Some token ->
    j <> 0%nat -> token ∉ stopwords ->
    exists results,
      PyStr.join " "
        (take j (PyStr.split " " out)
         ++ mask_token :: drop (S j) (PyStr.split " " sequence))
      ∈ tr
      /\ generate_candidates
           (PyStr.join " "
              (take j (PyStr.split " " out)
               ++ mask_token :: drop (S j) (PyStr.split " " sequence))) 25
         = Ok results
      /\ (Exists (fun id => matches (tokenizer_decode id) token = true) results ->
          PyStr.split " " out !! j = Some token
          /\ exists before id after,
               results = before ++ id :: after
               /\ Forall (no_match token) before
               /\ matches (tokenizer_decode id) token = true
               /\ scan token results
                  = ((decoded <$> before) ++ decoded id :: (Code <$> after),
                     true))
      /\ (Forall (no_match token) results ->
          exists id rest,
            results = id :: rest
            /\ PyStr.split " " out !! j = Some (tokenizer_decode id)))
  /\ (candidates_available ->
      exists out tr, correct_errors sequence = (Ok out, tr)).
Proof.
  intros Hdec. split; [|by intros; apply correct_errors_returns].
  intros out tr Hrun j token Htoken Hj Hstop.
  apply correct_errors_Ok_inv in Hrun; [|done].
  destruct (correct_loop_decision _ _ _ _ _ Hrun j token Htoken)
    as (results & Hin & Hgen & Hsame & Hnew); [simpl; lia|done|].
  simpl in Hin, Hgen, Hsame, Hnew.
  exists results. split; [done|]. split; [done|]. split.
  - intros Hm. split; [by rewrite (Hsame Hm)|].
    apply first_match in Hm as (before & id & after & -> & Hbefore & Hid).
    exists before, id, after.
    by rewrite (scan_first_match _ _ _ _ Hbefore Hid).
  - done.
Qed.

(** X21: every token of a returned sentence is the input's token at that
    position, or the decoding of the first candidate that the query made
    for that position returned, none of the candidates of that query being
    the input's token up to case (decoded candidates hold no space). *)
Theorem correct_errors_output_tokens sequence out tr :
  (forall id, spaceless (tokenizer_decode id)) ->
  correct_errors sequence = (Ok out, tr) ->
  forall j w, PyStr.split " " out !! j = Some w ->
    PyStr.split " " sequence !! j = Some w
    \/ exists token id rest,
         PyStr.split " " sequence !! j = Some token
         /\ PyStr.join " "
              (take j (PyStr.split " " out)
               ++ mask_token :: drop (S j) (PyStr.split " " sequence))
            ∈ tr
         /\ generate_candidates
              (PyStr.join " "
                 (take j (PyStr.split " " out)
                  ++ mask_token :: drop (S j) (PyStr.split " " sequence))) 25
            = Ok (id :: rest)
         /\ Forall (no_match token) (id :: rest)
         /\ w = tokenizer_decode id.
Proof.
  intros Hdec Hrun j w Hw.
  apply correct_errors_Ok_inv in Hrun; [|done].
  pose proof (correct_loop_inv _ _ _ _ _ Hrun) as (Hlen & _ & Hkeep & _).
  destruct (PyStr.split " " sequence !! j) as [token|] eqn:Htoken.
  - destruct (decide (j = 0%nat)) as [->|Hj].
    { left. pose proof (Hkeep 0%nat token Htoken (or_introl eq_refl)) as Hk.
      simpl in Hk. congruence. }
    destruct (decide (token ∈ stopwords)) as [Hstop|Hstop].
    { left. pose proof (Hkeep j token Htoken (or_intror Hstop)) as Hk.
      simpl in Hk. congruence. }
    destruct (correct_loop_decision _ _ _ _ _ Hrun j token Htoken)
      as (results & Hin & Hgen & Hsame & Hnew); [simpl; lia|done|].
    simpl in Hin, Hgen, Hsame, Hnew.
    destruct (match_or_not token results) as [Hm|Hm].
    + left. specialize (Hsame Hm). congruence.
    + right. destruct (Hnew Hm) as (id & rest & -> & Hout).
      exists token, id, rest. repeat split; try done. congruence.
  - apply lookup_lt_Some in Hw. apply lookup_ge_None in Htoken. lia.
Qed.

End Corrector.

(** * The methods at work in the sample world *)

Abbreviation sample_is_error := (is_error Sample.enchant_Dict).
Abbreviation sample_init := (__init__ Sample.read_csv).
Abbreviation sample_generate_candidates :=
  (generate_candidates Sample.mask_token_id Sample.encode nat Sample.model
     Sample.topk_indices).
Abbreviation sample_correct_position :=
  (correct_position Sample.mask_token Sample.mask_token_id Sample.encode
     Sample.decode nat Sample.model Sample.topk_indices).
Abbreviation sample_correct_errors :=
  (correct_errors Sample.stopwords Sample.mask_token Sample.mask_token_id
     Sample.encode Sample.decode nat Sample.model Sample.topk_indices).

Example clean_dont : clean_token "don't" = "don't".
Proof. reflexivity. Qed.

Example clean_didnt : clean_token "didn''t" = "didn't".
Proof. reflexivity. Qed.

Example clean_well_known : clean_token "Well-Known!" = "well-known".
Proof. reflexivity. Qed.

Example correct_sample :
  sample_correct_errors "We made ensure to meet"
  = (Ok "We make ensure to meet",
     ["We [MASK] ensure to meet"; "We make [MASK] to meet";
      "We make ensure to [MASK]"]).
Proof. vm_compute. reflexivity. Qed.

Lemma sample_decode_spaceless id : spaceless (Sample.decode id).
Proof. unfold spaceless, Sample.decode. by repeat case_match. Qed.

Lemma sample_candidates_available :
  candidates_available Sample.mask_token Sample.mask_token_id Sample.encode nat
    Sample.model Sample.topk_indices.
Proof.
  intros temp_sent i Hsp Hi.
  set (sent := PyStr.join " " (<[i:=Sample.mask_token]> temp_sent)).
  assert (Sample.mask_token_id ∈ Sample.encode sent) as Hmask.
  { unfold sent, Sample.encode. rewrite split_join.
    - apply elem_of_cons. right. apply elem_of_app. left.
      rewrite list_fmap_insert. apply list_elem_of_lookup. exists i.
      apply list_lookup_insert_eq. by rewrite length_fmap.
    - intros Hnil. apply (f_equal length) in Hnil.
      rewrite length_insert in Hnil. simpl in Hnil. lia.
    - by apply Forall_insert. }
  apply (mask_positions_found _ _ 0%nat) in Hmask.
  unfold generate_candidates, Sample.model.
  destruct (mask_positions Sample.mask_token_id 0 (Sample.encode sent))
    as [|p ps]; [done|].
  by exists 0, (Z.of_nat <$> seq 1 24).
Qed.

Lemma sample_stopword_to : "to" ∈ Sample.stopwords.
Proof. by apply (bool_decide_unpack _). Qed.

Lemma sample_stopword_the : "the" ∈ Sample.stopwords.
Proof. by apply (bool_decide_unpack _). Qed.

(** A vocabulary entry with a space in it would add a token: the assumption
    on decoded candidates cannot be dropped. *)
Example space_in_candidate_changes_count :
  correct_errors Sample.stopwords Sample.mask_token Sample.mask_token_id
    Sample.encode Sample.decode_phrase nat Sample.model Sample.topk_indices
    "We made"
  = (Ok "We at least", ["We [MASK]"])
  /\ length (PyStr.split " " "We at least") = 3%nat
  /\ length (PyStr.split " " "We made") = 2%nat.
Proof. repeat split; vm_compute; reflexivity. Qed.

(** With no candidate at all the index raises. *)
Example no_candidate_raises :
  correct_errors Sample.stopwords Sample.mask_token Sample.mask_token_id
    Sample.encode Sample.decode nat Sample.model Sample.topk_nothing "We made"
  = (Raise IndexError, ["We [MASK]"]).
Proof. vm_compute. reflexivity. Qed.

(** With the American word list alone, the call raises at the second
    provider and the first one stays on the instance. *)
Example is_error_second_provider_missing :
  is_error Sample.enchant_us_only Sample.fresh "ab"
  = (Raise DictNotFoundError, set_dict_us (Some Sample.en_US) Sample.fresh).
Proof. reflexivity. Qed.

(** ** C1: the constructor on an existing corpus *)

Lemma init_discards_frequency_table_witness :
  sample_init 3 10 (Some "corpus.csv") = (Ok Sample.fresh, [])
  /\ frequency_list Sample.fresh = None
  /\ (generate_frequency_list Sample.read_csv Sample.fresh "corpus.csv").1.2
     = set_frequency_list (Some Sample.corpus_table) Sample.fresh.
Proof.
  split; [vm_compute; reflexivity|]. split.
  - apply (init_discards_frequency_table Sample.read_csv 3 10
             (Some "corpus.csv") Sample.fresh []).
    vm_compute. reflexivity.
  - vm_compute. reflexivity.
Defined.

(** ** C2: cleaning twice *)

Lemma clean_token_not_idempotent :
  clean_token "a'!" = "a'"
  /\ clean_token (clean_token "a'!") = "a"
  /\ clean_token (clean_token "a'!") <> clean_token "a'!".
Proof. split; [reflexivity|]. split; [reflexivity|]. vm_compute. discriminate. Qed.

Lemma clean_token_idempotent_iff_witness :
  apostrophe_stranded "Don't!" = false
  /\ clean_token (clean_token "Don't!") = clean_token "Don't!".
Proof.
  split; [reflexivity|].
  apply (proj2 (clean_token_idempotent_iff "Don't!")). reflexivity.
Defined.

(** ** C3: a count equal to the maximum *)

Lemma frequency_boundary_counterexample :
  frequency_list Sample.with_table = Some {[ "colur" := 10; "colour" := 11 ]}
  /\ counter_get {[ "colur" := 10; "colour" := 11 ]} (clean_token "Colur!")
     = frequency_maximum Sample.with_table
  /\ frequency_rule Sample.with_table (clean_token "Colur!") = false
  /\ (sample_is_error Sample.with_table "Colur!").1 = Ok true.
Proof. repeat split; vm_compute; reflexivity. Qed.

Lemma is_error_frequency_boundary_witness :
  frequency_list Sample.with_table = Some {[ "colur" := 10; "colour" := 11 ]}
  /\ counter_get {[ "colur" := 10; "colour" := 11 ]} (clean_token "Colur!")
     = frequency_maximum Sample.with_table
  /\ frequency_rule Sample.with_table (clean_token "Colur!") = false.
Proof.
  split; [reflexivity|]. split; [vm_compute; reflexivity|].
  apply (is_error_frequency_boundary Sample.enchant_Dict Sample.with_table
           "Colur!" {[ "colur" := 10; "colour" := 11 ]});
    vm_compute; reflexivity.
Defined.

(** ** C4: the decision at a masked position *)

Lemma correct_position_decision_witness :
  (1 < length ["We"; "made"; "ensure"])%nat
  /\ sample_generate_candidates "We [MASK] ensure" 25
     = Ok (Z.of_nat <$> seq 0 25)
  /\ sample_correct_position 1 "made" ["We"; "made"; "ensure"]
     = (Ok ["We"; "make"; "ensure"], ["We [MASK] ensure"]).
Proof.
  split; [simpl; lia|]. split; [vm_compute; reflexivity|].
  apply (proj2 (correct_position_decision Sample.mask_token
                  Sample.mask_token_id Sample.encode Sample.decode nat
                  Sample.model Sample.topk_indices 1 "made"
                  ["We"; "made"; "ensure"] (Z.of_nat <$> seq 0 25)
                  ltac:(simpl; lia) ltac:(vm_compute; reflexivity))).
  repeat (constructor; [reflexivity|]). constructor.
Defined.

Lemma sample_not_stopword_made : "made" ∉ Sample.stopwords.
Proof. by apply (bool_decide_unpack _). Qed.

Lemma sample_not_stopword_ensure : "ensure" ∉ Sample.stopwords.
Proof. by apply (bool_decide_unpack _). Qed.

(** Both branches in one sentence: no candidate is [made], which gives way
    to candidate 0; candidate 2 is [ensure] up to case, which stays. *)
Lemma correct_errors_decision_witness :
  (forall id, spaceless (Sample.decode id))
  /\ sample_correct_errors "We made ensure to meet"
     = (Ok "We make ensure to meet",
        ["We [MASK] ensure to meet"; "We make [MASK] to meet";
         "We make ensure to [MASK]"])
  /\ PyStr.split " " "We make ensure to meet" !! 1%nat
     = Some (Sample.decode 0)
  /\ PyStr.split " " "We make ensure to meet" !! 2%nat = Some "ensure".
Proof.
  pose proof (proj1 (correct_errors_decision Sample.stopwords Sample.mask_token
                       Sample.mask_token_id Sample.encode Sample.decode nat
                       Sample.model Sample.topk_indices
                       "We made ensure to meet" sample_decode_spaceless)
                _ _ correct_sample) as Hdecide.
  split; [apply sample_decode_spaceless|]. split; [exact correct_sample|].
  split.
  - destruct (Hdecide 1%nat "made" eq_refl ltac:(lia) sample_not_stopword_made)
      as (results & _ & Hgen & _ & Hnone).
    vm_compute in Hgen. injection Hgen as <-.
    destruct Hnone as (id & rest & Heq & Hout).
    { repeat (constructor; [reflexivity|]). constructor. }
    injection Heq as <- _. exact Hout.
  - destruct (Hdecide 2%nat "ensure" eq_refl ltac:(lia)
                sample_not_stopword_ensure)
      as (results & _ & Hgen & Hmatch & _).
    vm_compute in Hgen. injection Hgen as <-.
    apply Hmatch. do 2 apply Exists_cons_tl. by apply Exists_cons_hd.
Defined.

(** ** C5 and C6: first token, stopwords and token count *)

Lemma correct_errors_keeps_first_and_stopwords_witness :
  (forall id, spaceless (Sample.decode id))
  /\ PyStr.split " " "We make ensure to meet" !! 3%nat = Some "to"
  /\ PyStr.split " " "We make ensure to meet" !! 0%nat = Some "We".
Proof.
  split; [apply sample_decode_spaceless|].
  pose proof (proj1 (correct_errors_keeps_first_and_stopwords Sample.stopwords
                       Sample.mask_token Sample.mask_token_id Sample.encode
                       Sample.decode nat Sample.model Sample.topk_indices
                       "We made ensure to meet" sample_decode_spaceless)
                _ _ correct_sample) as Hkept.
  split.
  - apply (Hkept 3%nat "to"); [reflexivity|]. right. apply sample_stopword_to.
  - apply (Hkept 0%nat "We"); [reflexivity|]. by left.
Defined.

Lemma correct_errors_token_count_witness :
  (forall id, spaceless (Sample.decode id))
  /\ length (PyStr.split " " "We make ensure to meet")
     = length (PyStr.split " " "We made ensure to meet")
  /\ exists out tr, sample_correct_errors "a  colur " = (Ok out, tr).
Proof.
  split; [apply sample_decode_spaceless|].
  pose proof (correct_errors_token_count Sample.stopwords Sample.mask_token
                Sample.mask_token_id Sample.encode Sample.decode nat
                Sample.model Sample.topk_indices) as Hcount.
  split.
  - apply (proj1 (Hcount "We made ensure to meet" sample_decode_spaceless)
             _ _ correct_sample).
  - apply (proj2 (Hcount "a  colur " sample_decode_spaceless)).
    apply sample_candidates_available.
Defined.

(** ** C7: a corpus path that names no file *)

Lemma init_missing_corpus_witness :
  Sample.read_csv "nothing.csv" = Raise FileNotFoundError
  /\ sample_init 3 10 (Some "nothing.csv")
     = (Ok Sample.fresh, [no_corpus_message])
  /\ (sample_init 3 10 None).1 = Ok Sample.fresh.
Proof.
  split; [reflexivity|].
  destruct (init_missing_corpus Sample.enchant_Dict Sample.read_csv 3 10
              "nothing.csv" eq_refl) as (Hinit & Hsame & _).
  split; [exact Hinit|exact Hsame].
Defined.

(** ** C8: a known word *)

Lemma is_error_known_word_witness :
  us_provider Sample.enchant_Dict Sample.with_table = Ok Sample.en_US
  /\ gb_provider Sample.enchant_Dict Sample.with_table = Ok Sample.en_GB
  /\ check Sample.en_US (clean_token "Color,") = true
  /\ counter_get {[ "colur" := 10; "colour" := 11 ]} (clean_token "Color,") = 0
  /\ exists self', sample_is_error Sample.with_table "Color," = (Ok false, self').
Proof.
  split; [reflexivity|]. split; [reflexivity|].
  split; [vm_compute; reflexivity|]. split; [vm_compute; reflexivity|].
  apply (is_error_known_word Sample.enchant_Dict Sample.with_table "Color,"
           Sample.en_US Sample.en_GB eq_refl eq_refl).
  left. vm_compute. reflexivity.
Defined.

(** ** C9: nothing to correct *)

Lemma correct_errors_nothing_to_correct_witness :
  Forall (fun token => token ∈ Sample.stopwords)
    (tail (PyStr.split " " "Colur to the"))
  /\ sample_correct_errors "Colur to the" = (Ok "Colur to the", []).
Proof.
  assert (Forall (fun token => token ∈ Sample.stopwords)
            (tail (PyStr.split " " "Colur to the"))) as Hall.
  { change (tail (PyStr.split " " "Colur to the")) with ["to"; "the"].
    apply Forall_cons_2; [apply sample_stopword_to|].
    apply Forall_cons_2; [apply sample_stopword_the|apply Forall_nil_2]. }
  split; [exact Hall|].
  apply (correct_errors_nothing_to_correct Sample.stopwords Sample.mask_token
           Sample.mask_token_id Sample.encode Sample.decode nat Sample.model
           Sample.topk_indices "Colur to the").
  left. exact Hall.
Defined.

(** ** C10: no word list installed *)

Lemma is_error_dictionaries_first_witness :
  us_provider Sample.enchant_nothing Sample.fresh = Raise DictNotFoundError
  /\ length_rule Sample.fresh (clean_token "ab") = true
  /\ is_error Sample.enchant_nothing Sample.fresh "ab"
     = (Raise DictNotFoundError, Sample.fresh).
Proof.
  split; [reflexivity|]. split; [reflexivity|].
  apply (proj1 (is_error_dictionaries_first Sample.enchant_nothing
                  Sample.read_csv Sample.fresh "ab")).
  reflexivity.
Defined.

(** * Further properties at work in the sample world *)

(** X8: once a call of [is_error] has returned, the providers are on the
    instance: a later call (one that does not ask a dictionary about the
    empty string: the minimum is not negative, or the cleaned token is not
    empty) returns whatever has become of the word lists, constructs nothing
    and leaves the instance as it is. *)
Theorem is_error_caches_providers
    (enchant_Dict enchant_Dict' : string -> result Dict)
    self token v self' token' :
  is_error enchant_Dict self token = (Ok v, self') ->
  0 <= char_minimum self \/ clean_token token' <> EmptyString ->
  is_error enchant_Dict' self' token'
  = (Ok (verdict self' (clean_token token')), self').
Proof.
  intros Hrun _.
  apply is_error_Ok_inv in Hrun as (us & gb & _ & _ & Hus & Hgb & _).
  unfold is_error, load_dict_us. rewrite Hus.
  unfold load_dict_gb. by rewrite Hgb.
Qed.

Lemma clean_token_word_token_witness :
  all_chars keeps "Well-Known" = true
  /\ clean_token "Well-Known" = "well-known".
Proof.
  split; [reflexivity|].
  apply (clean_token_word_token "Well-Known"). reflexivity.
Defined.

Lemma is_error_short_token_witness :
  PyStr.len (clean_token "ab!") <= char_minimum Sample.with_table
  /\ (sample_is_error Sample.with_table "ab!").1 = Ok false.
Proof.
  split; [vm_compute; discriminate|].
  apply (is_error_short_token Sample.enchant_Dict Sample.with_table "ab!"
           Sample.en_US Sample.en_GB eq_refl eq_refl).
  vm_compute. discriminate.
Defined.

Lemma is_error_frequent_token_witness :
  check Sample.en_US (clean_token "kubectl") = false
  /\ check Sample.en_GB (clean_token "kubectl") = false
  /\ frequency_maximum Sample.with_jargon
     < counter_get {[ "kubectl" := 12 ]} (clean_token "kubectl")
  /\ (sample_is_error Sample.with_jargon "kubectl").1 = Ok false.
Proof.
  split; [vm_compute; reflexivity|]. split; [vm_compute; reflexivity|].
  split; [vm_compute; reflexivity|].
  apply (is_error_frequent_token Sample.enchant_Dict Sample.with_jargon
           "kubectl" Sample.en_US Sample.en_GB {[ "kubectl" := 12 ]}
           eq_refl eq_refl eq_refl).
  - intros Hempty. apply (f_equal (fun c : Counter => c !! "kubectl")) in Hempty.
    vm_compute in Hempty. discriminate.
  - vm_compute. reflexivity.
Defined.

Lemma is_error_empty_table_witness :
  frequency_list Sample.with_empty_table = Some ∅
  /\ (sample_is_error Sample.with_empty_table "colur").1 = Ok true
  /\ (sample_is_error Sample.with_empty_table "colur").1
     = (sample_is_error (set_frequency_list None Sample.with_empty_table)
          "colur").1.
Proof.
  split; [reflexivity|]. split; [vm_compute; reflexivity|].
  apply (is_error_empty_table Sample.enchant_Dict Sample.with_empty_table
           "colur" eq_refl).
Defined.

Lemma is_error_caches_providers_witness :
  (sample_is_error Sample.fresh "colur").1 = Ok true
  /\ (is_error Sample.enchant_nothing
        (sample_is_error Sample.fresh "colur").2 "hello").1 = Ok false.
Proof.
  split; [vm_compute; reflexivity|].
  rewrite (is_error_caches_providers Sample.enchant_Dict Sample.enchant_nothing
             Sample.fresh "colur" true
             (sample_is_error Sample.fresh "colur").2 "hello" eq_refl
             ltac:(left; vm_compute; discriminate)).
  vm_compute. reflexivity.
Defined.

Lemma is_error_true_iff_witness :
  0 <= char_minimum Sample.with_table
  /\ (sample_is_error Sample.with_table "Colur!").1 = Ok true.
Proof.
  split; [vm_compute; discriminate|].
  apply (proj2 (is_error_true_iff Sample.enchant_Dict Sample.with_table
                  "Colur!" ltac:(left; vm_compute; discriminate))).
  exists Sample.en_US, Sample.en_GB.
  repeat split; vm_compute; reflexivity.
Defined.

Lemma generate_frequency_list_counts_witness :
  Sample.read_csv "corpus.csv" = Ok Sample.corpus
  /\ exists c,
       generate_frequency_list Sample.read_csv Sample.fresh "corpus.csv"
       = (Ok None, set_frequency_list (Some c) Sample.fresh, [])
       /\ counter_get c "the" = 2
       /\ counter_get c "colour" = 2
       /\ counter_get c "colur" = 1
       /\ counter_get c "cat" = 0.
Proof.
  split; [reflexivity|].
  destruct (generate_frequency_list_counts Sample.read_csv Sample.fresh
              "corpus.csv" Sample.corpus
              [CellStr "The colour, the Spelling!"; CellStr "colour  colur"]
              ["The colour, the Spelling!"; "colour  colur"]
              eq_refl eq_refl eq_refl) as (c & Hgen & Hcount).
  exists c. split; [exact Hgen|].
  rewrite !Hcount. repeat split; vm_compute; reflexivity.
Defined.

Lemma generate_frequency_list_missing_column_witness :
  Sample.read_more "notes.csv" = Ok {[ "notes" := [CellStr "colour"] ]}
  /\ generate_frequency_list Sample.read_more Sample.with_table "notes.csv"
     = (Raise KeyError, set_frequency_list (Some ∅) Sample.with_table, []).
Proof.
  split; [reflexivity|].
  apply (generate_frequency_list_missing_column Sample.read_more
           Sample.with_table "notes.csv" {[ "notes" := [CellStr "colour"] ]}
           eq_refl).
  vm_compute. reflexivity.
Defined.

Lemma generate_frequency_list_bad_cell_witness :
  Sample.read_more "holes.csv"
  = Ok {[ "answers" := [CellStr "the colour"; CellOther; CellStr "the"] ]}
  /\ generate_frequency_list Sample.read_more Sample.fresh "holes.csv"
     = (Raise AttributeError,
        set_frequency_list (Some {[ "the" := 1; "colour" := 1 ]}) Sample.fresh,
        []).
Proof.
  split; [reflexivity|].
  rewrite (generate_frequency_list_bad_cell Sample.read_more Sample.fresh
             "holes.csv"
             {[ "answers" := [CellStr "the colour"; CellOther; CellStr "the"] ]}
             [CellStr "the colour"] [CellStr "the"] ["the colour"]
             eq_refl ltac:(vm_compute; reflexivity) eq_refl).
  vm_compute. reflexivity.
Defined.

Lemma generate_candidates_first_mask_witness :
  Sample.encode "We [MASK] [MASK]" = [101; 100] ++ 103 :: [103; 102]
  /\ sample_generate_candidates "We [MASK] [MASK]" 2
     = Sample.topk_indices 5%nat 2%nat 2%nat.
Proof.
  split; [vm_compute; reflexivity|].
  rewrite (generate_candidates_first_mask Sample.mask_token_id Sample.encode
             nat Sample.model Sample.topk_indices "We [MASK] [MASK]" 2
             [101; 100] [103; 102] ltac:(vm_compute; reflexivity)).
  - reflexivity.
  - intros Hin. apply elem_of_cons in Hin as [Hin|Hin]; [discriminate|].
    apply elem_of_cons in Hin as [Hin|Hin]; [discriminate|].
    by apply not_elem_of_nil in Hin.
Defined.

Lemma sample_no_mask : Sample.mask_token_id ∉ Sample.encode "We made".
Proof.
  change (Sample.encode "We made") with [101; 100; 100; 102].
  intros Hin. repeat (apply elem_of_cons in Hin as [Hin|Hin]; [discriminate|]).
  by apply not_elem_of_nil in Hin.
Qed.

Lemma generate_candidates_no_mask_witness :
  (Sample.mask_token_id ∉ Sample.encode "We made")
  /\ (forall token_logits p,
        exists r, Sample.topk_indices token_logits p 25 = Ok r)
  /\ sample_generate_candidates "We made" 25 = Raise IndexError.
Proof.
  split; [apply sample_no_mask|].
  assert (forall token_logits p,
            exists r, Sample.topk_indices token_logits p 25 = Ok r) as Htopk.
  { intros token_logits p. by eexists. }
  split; [exact Htopk|].
  apply (generate_candidates_no_mask Sample.mask_token_id Sample.encode nat
           Sample.model Sample.topk_indices "We made" 25 sample_no_mask Htopk).
Defined.

Lemma correct_errors_query_count_witness :
  length ["We [MASK] ensure to meet"; "We make [MASK] to meet";
          "We make ensure to [MASK]"]
  = length (correctable Sample.stopwords 0
              (PyStr.split " " "We made ensure to meet")).
Proof.
  apply (correct_errors_query_count Sample.stopwords Sample.mask_token
           Sample.mask_token_id Sample.encode Sample.decode nat Sample.model
           Sample.topk_indices "We made ensure to meet" _ _ correct_sample).
Defined.

Lemma correct_errors_queries_witness :
  spaceless Sample.mask_token
  /\ Forall2 (fun sent p => PyStr.split " " sent !! p = Some Sample.mask_token)
       ["We [MASK] ensure to meet"; "We make [MASK] to meet";
        "We make ensure to [MASK]"]
       (correctable Sample.stopwords 0
          (PyStr.split " " "We made ensure to meet")).
Proof.
  split; [reflexivity|].
  apply (correct_errors_queries Sample.stopwords Sample.mask_token
           Sample.mask_token_id Sample.encode Sample.decode nat Sample.model
           Sample.topk_indices "We made ensure to meet" _ _ eq_refl
           sample_decode_spaceless correct_sample).
Defined.

Lemma correct_errors_output_tokens_witness :
  PyStr.split " " "We make ensure to meet" !! 1%nat = Some "make"
  /\ (PyStr.split " " "We made ensure to meet" !! 1%nat = Some "make"
      \/ exists token id rest,
           PyStr.split " " "We made ensure to meet" !! 1%nat = Some token
           /\ PyStr.join " "
                (take 1 (PyStr.split " " "We make ensure to meet")
                 ++ Sample.mask_token
                    :: drop 2 (PyStr.split " " "We made ensure to meet"))
              ∈ ["We [MASK] ensure to meet"; "We make [MASK] to meet";
                 "We make ensure to [MASK]"]
           /\ sample_generate_candidates
                (PyStr.join " "
                   (take 1 (PyStr.split " " "We make ensure to meet")
                    ++ Sample.mask_token
                       :: drop 2 (PyStr.split " " "We made ensure to meet")))
                25
              = Ok (id :: rest)
           /\ Forall (no_match Sample.decode token) (id :: rest)
           /\ "make" = Sample.decode id).
Proof.
  split; [reflexivity|].
  apply (correct_errors_output_tokens Sample.stopwords Sample.mask_token
           Sample.mask_token_id Sample.encode Sample.decode nat Sample.model
           Sample.topk_indices "We made ensure to meet" _ _
           sample_decode_spaceless correct_sample 1%nat "make" eq_refl).
Defined.

Lemma correct_errors_error_source_witness :
  exists tr0 sent,
    ["We [MASK]"] = tr0 ++ [sent]
    /\ (generate_candidates Sample.mask_token_id Sample.encode nat Sample.model
          Sample.topk_nothing sent 25 = Raise IndexError
        \/ generate_candidates Sample.mask_token_id Sample.encode nat
             Sample.model Sample.topk_nothing sent 25 = Ok []
           /\ IndexError = IndexError).
Proof.
  apply (correct_errors_error_source Sample.stopwords Sample.mask_token
           Sample.mask_token_id Sample.encode Sample.decode nat Sample.model
           Sample.topk_nothing "We made" IndexError ["We [MASK]"]
           no_candidate_raises).
Defined.

Lemma sample_plausible j token :
  PyStr.split " " "We ensure MEET" !! j = Some token ->
  j <> 0%nat -> token ∉ Sample.stopwords ->
  exists results,
    sample_generate_candidates
      (PyStr.join " "
         (<[j:=Sample.mask_token]> (PyStr.split " " "We ensure MEET"))) 25
    = Ok results
    /\ Exists (fun id => matches (Sample.decode id) token = true) results.
Proof.
  intros Htoken Hj _. exists (Z.of_nat <$> seq 0 25).
  destruct j as [|[|[|j]]]; [done| | |done].
  - injection Htoken as <-. split; [vm_compute; reflexivity|].
    do 2 apply Exists_cons_tl. by apply Exists_cons_hd.
  - injection Htoken as <-. split; [vm_compute; reflexivity|].
    do 3 apply Exists_cons_tl. by apply Exists_cons_hd.
Qed.

Lemma correct_errors_plausible_witness :
  (sample_correct_errors "We ensure MEET").1 = Ok "We ensure MEET".
Proof.
  apply (correct_errors_plausible Sample.stopwords Sample.mask_token
           Sample.mask_token_id Sample.encode Sample.decode nat Sample.model
           Sample.topk_indices "We ensure MEET" sample_plausible).
Defined.
